(** * libbeat publisher queues: disk queue construction and memory queue producers

    A shallow embedding of
    - [publisher/queue/diskqueue/queue.go]: [NewQueue] and [diskQueue.Close];
    - [publisher/queue/memqueue/internal_api.go] (producer part): [newProducer],
      [ackProducer], [forgetfulProducer] and [openState.publish] /
      [openState.tryPublish].

    Go values are modelled as the code has them: fixed-width integers are [Z]
    with the wrap-around written out, channels live in a heap of buffers with a
    closed flag, [select] picks one of the ready cases through a scheduler
    choice, and the file system calls of [NewQueue] are answered by a record of
    results. *)

From Stdlib Require Import ZArith List Bool Lia String Sorted.
From stdpp Require Import base list.
Import ListNotations.

Set Implicit Arguments.

(* ===================================================================== *)
(** * Go runtime: machine integers, channels, [select] *)
(* ===================================================================== *)

Module Go.

Local Open Scope Z_scope.

(** ** Fixed-width integers *)

Definition wrap_unsigned (bits z : Z) : Z := z mod 2 ^ bits.

Definition wrap_signed (bits z : Z) : Z :=
  (z + 2 ^ (bits - 1)) mod 2 ^ bits - 2 ^ (bits - 1).

(** [uint64(z)]: arithmetic on [uint64] is taken modulo [2^64]. *)
Definition uint64 (z : Z) : Z := wrap_unsigned 64 z.

(** Width of Go's [int] on the 64-bit targets (amd64, arm64). *)
Definition int_bits : Z := 64.

(** [int(z)]: conversion to, and arithmetic on, the signed [int]. *)
Definition int (z : Z) : Z := wrap_signed int_bits z.

(** ** Channels

    A channel is a bounded buffer with a closed flag.  References to
    channels are heap indices; the [nil] channel is [None]. *)

Section Channels.

Variable V : Type.

Record chan : Type := mkChan {
  ch_cap : nat;
  ch_buf : list V;
  ch_closed : bool
}.

(** The channel heap. *)
#[local] Abbreviation heap := (list chan).

Definition chanref : Type := option nat.

(** [make(chan T, cap)] *)
Definition make (cap : nat) (h : heap) : chanref * heap :=
  (Some (length h), h ++ [mkChan cap [] false]).

(** A send can proceed when the buffer has room; on a closed channel it
    proceeds by panicking.  A send on [nil] never proceeds. *)
Definition send_ready (h : heap) (c : chanref) : bool :=
  match c with
  | None => false
  | Some i =>
      match h !! i with
      | Some ch => ch_closed ch || (length (ch_buf ch) <? ch_cap ch)%nat
      | None => false
      end
  end.

(** A receive can proceed when a value is buffered or the channel is
    closed.  A receive on [nil] never proceeds. *)
Definition recv_ready (h : heap) (c : chanref) : bool :=
  match c with
  | None => false
  | Some i =>
      match h !! i with
      | Some ch =>
          ch_closed ch || negb (Nat.eqb (length (ch_buf ch)) 0)
      | None => false
      end
  end.

(** [c <- v] once it can proceed; [None] is a panic (send on a closed
    channel). *)
Definition send (h : heap) (c : chanref) (v : V) : option heap :=
  match c with
  | None => None
  | Some i =>
      match h !! i with
      | Some ch =>
          if ch_closed ch then None
          else Some (<[i := mkChan (ch_cap ch) (ch_buf ch ++ [v])
                                   (ch_closed ch)]> h)
      | None => None
      end
  end.

(** [<-c] once it can proceed: the oldest buffered value, or no value
    (the zero value on the Go side) from a closed, drained channel. *)
Definition recv (h : heap) (c : chanref) : option V * heap :=
  match c with
  | None => (None, h)
  | Some i =>
      match h !! i with
      | Some ch =>
          match ch_buf ch with
          | v :: rest =>
              (Some v, <[i := mkChan (ch_cap ch) rest (ch_closed ch)]> h)
          | [] => (None, h)
          end
      | None => (None, h)
      end
  end.

(** [close(c)]; [None] is a panic (close of [nil] or of a closed
    channel). *)
Definition close (h : heap) (c : chanref) : option heap :=
  match c with
  | None => None
  | Some i =>
      match h !! i with
      | Some ch =>
          if ch_closed ch then None
          else Some (<[i := mkChan (ch_cap ch) (ch_buf ch) true]> h)
      | None => None
      end
  end.

Definition is_open (h : heap) (c : chanref) : Prop :=
  exists i ch, c = Some i /\ h !! i = Some ch /\ ch_closed ch = false.

Definition is_closed (h : heap) (c : chanref) : bool :=
  match c with
  | None => false
  | Some i =>
      match h !! i with
      | Some ch => ch_closed ch
      | None => false
      end
  end.

(** ** What the other goroutines do between two looks at the heap *)

Inductive env_action : Type :=
| EnvClose (c : nat)
| EnvSend (c : nat) (v : V)
| EnvRecv (c : nat).

Definition env_step (h : heap) (a : env_action) : heap :=
  match a with
  | EnvClose c =>
      match close h (Some c) with Some h' => h' | None => h end
  | EnvSend c v =>
      if send_ready h (Some c)
      then match send h (Some c) v with Some h' => h' | None => h end
      else h
  | EnvRecv c => snd (recv h (Some c))
  end.

Definition env_run (h : heap) (acts : list env_action) : heap :=
  fold_left env_step acts h.

(** One look of a goroutine at the heap: what happened since its last
    look, and the scheduler's choice should several cases be ready. *)
Definition moment : Type := (list env_action * nat)%type.

End Channels.

Abbreviation heap V := (list (chan V)).

(** ** [select]

    Among the cases that can proceed one is chosen (by the scheduler's
    [pick]); with none ready the [default] case runs if there is one, and
    otherwise the goroutine waits. *)

Inductive choice (A : Type) : Type :=
| Chosen (a : A)
| Default
| Wait.

Arguments Default {A}.
Arguments Wait {A}.

Definition go_select {A : Type} (ready : list A) (has_default : bool)
    (pick : nat) : choice A :=
  match ready with
  | [] => if has_default then Default else Wait
  | a :: _ => Chosen (nth (pick mod length ready)%nat ready a)
  end.

(** Result of a [select] watched over a window of moments. *)
Inductive selected (V A : Type) : Type :=
| Fired (a : A) (h : heap V) (rest : list (moment V))
| FellThrough (h : heap V) (rest : list (moment V))
| Parked (h : heap V).

Arguments FellThrough {V A}.
Arguments Parked {V A}.

Fixpoint select_wait {V A : Type} (ready : heap V -> list A)
    (has_default : bool) (h : heap V) (tl : list (moment V))
    : selected V A :=
  match tl with
  | [] => Parked h
  | (acts, pick) :: tl' =>
      let h' := env_run h acts in
      match go_select (ready h') has_default pick with
      | Chosen a => Fired a h' tl'
      | Default => FellThrough h' tl'
      | Wait => select_wait ready has_default h' tl'
      end
  end.

End Go.

(* ===================================================================== *)
(** * Disk queue: [publisher/queue/diskqueue/queue.go] *)
(* ===================================================================== *)

Module diskqueue.

Import Go.
Local Open Scope string_scope.
Local Open Scope list_scope.
Local Open Scope Z_scope.

(** ** Errors

    [Errorf] is [fmt.Errorf] with a format and its numeric arguments;
    [ErrorfW] is [fmt.Errorf] with the [%w] verb and the error it wraps. *)

Inductive error : Type :=
| ErrNotExist
| ErrPermission
| ErrOther (msg : string)
| Errorf (format : string) (args : list Z)
| ErrorfW (format : string) (wrapped : error).

(** [errors.Is(err, os.ErrNotExist)]: follows the chain of wrapped errors. *)
Fixpoint errors_Is_ErrNotExist (err : error) : bool :=
  match err with
  | ErrNotExist => true
  | ErrorfW _ w => errors_Is_ErrNotExist w
  | _ => false
  end.

(** ** Data *)

(** The two size limits of [Settings] read by [NewQueue] (both [uint64];
    a [MaxBufferSize] of 0 means no limit). *)
Record Settings : Type := mkSettings {
  MaxBufferSize : Z;
  MaxSegmentSize : Z
}.

(** [queuePosition]: three [uint64] fields, zero value [(0, 0, 0)]. *)
Record queuePosition : Type := mkPosition {
  segmentID : Z;
  frameIndex : Z;
  byteIndex : Z
}.

(** [queueSegment] as far as [NewQueue] reads it: [id] ([uint64]),
    [frameCount] ([uint32]), [byteCount] ([uint64]) and the schema version
    that decides the header size. *)
Record queueSegment : Type := mkSegment {
  id : Z;
  schemaVersion : option Z;
  frameCount : Z;
  byteCount : Z
}.

Record diskQueueSegments : Type := mkSegments {
  reading : list queueSegment;
  acked : list queueSegment;
  nextID : Z;
  nextReadPosition : Z
}.

(** The observer in use: the caller's, or the one [NewQueue] makes with
    [queue.NewQueueObserver(nil)] when given [nil]. *)
Inductive observerRef : Type :=
| CallerObserver (o : nat)
| NewQueueObserver.

(** What [NewQueue] does to the outside world, in order. *)
Inductive effect : Type :=
| Debugf (format : string)
| Warnf (format : string) (err : error)
| Infof (format : string) (args : list Z)
| ObserverMaxBytes (o : observerRef) (n : Z)
| ObserverRestore (o : observerRef) (eventCount byteCount : Z)
| GoRun (loop : string).

Section NewQueue.

(** Parts of the package that [NewQueue] calls: the segment's header size,
    the two paths derived from the settings, and the encoder type. *)
Variable headerSize : queueSegment -> Z.
Variable directoryPath : Settings -> string.
Variable stateFilePath : Settings -> string.
Variable Encoder : Type.

(** Answers of the file system to the calls [NewQueue] makes.  A Go call
    returning [(T, error)] answers with a pair; [None] is the [nil] error. *)
Record filesystem : Type := mkFs {
  os_MkdirAll : string -> option error;
  queuePositionFromPath : string -> queuePosition * option error;
  os_OpenFile : string -> option nat * option error;
  scanExistingSegments : string -> list queueSegment * option error
}.

(** [newDiskQueueACKs(logger, position, positionFile)], kept as its
    arguments. *)
Record diskQueueACKs : Type := mkACKs {
  nextPosition : queuePosition;
  positionFile : option nat
}.

Record diskQueue : Type := mkQueue {
  observer : observerRef;
  settings : Settings;
  segments : diskQueueSegments;
  acks : diskQueueACKs;
  (** [newReaderLoop(settings, encoder)] *)
  readerLoop : Settings * option Encoder;
  (** [newWriterLoop(logger, settings)] *)
  writerLoop : Settings;
  (** [newDeleterLoop(settings)] *)
  deleterLoop : Settings;
  writing : bool;
  writeRequestSize : Z;
  (** the queue's own [reading] flag *)
  reading_ : bool;
  deleting : bool;
  producerWriteRequestChan : chanref;
  close : chanref;
  done : chanref
}.

(** ** A small monad for [NewQueue]: channel heap, effect log, early error *)

Record state : Type := mkState {
  chans : heap unit;
  trace : list effect
}.

Definition M (A : Type) : Type := state -> state * (error + A).

#[export] Instance M_ret : MRet M := fun A a s => (s, inr a).

#[export] Instance M_bind : MBind M := fun A B k m s =>
  match m s with
  | (s', inl e) => (s', inl e)
  | (s', inr a) => k a s'
  end.

Definition fail {A : Type} (e : error) : M A := fun s => (s, inl e).

Definition emit (e : effect) : M unit :=
  fun s => (mkState (chans s) (trace s ++ [e]), inr tt).

Definition make_chan (cap : nat) : M chanref :=
  fun s =>
    let (c, h) := make cap (chans s) in
    (mkState h (trace s), inr c).

(** ** The loops of [NewQueue] *)

(** Lines 176-182: event and byte totals reported to the observer. *)
Fixpoint initialCounts (initialSegments : list queueSegment)
    (initialEventCount initialByteCount : Z) : Z * Z :=
  match initialSegments with
  | [] => (initialEventCount, initialByteCount)
  | segment :: rest =>
      initialCounts rest
        (int (initialEventCount + int (frameCount segment)))
        (int (initialByteCount
              + int (uint64 (byteCount segment - headerSize segment))))
  end.

(** Lines 188-193: segments in front of the read position go to the acked
    list. *)
Fixpoint moveAcked (readSegmentID : Z)
    (ackedSegments initialSegments : list queueSegment)
    : list queueSegment * list queueSegment :=
  match initialSegments with
  | segment :: rest =>
      if id segment <? readSegmentID
      then moveAcked readSegmentID (ackedSegments ++ [segment]) rest
      else (ackedSegments, initialSegments)
  | [] => (ackedSegments, [])
  end.

(** Lines 202-205. *)
Fixpoint activeFrames (initialSegments : list queueSegment)
    (activeFrameCount : Z) : Z :=
  match initialSegments with
  | [] => activeFrameCount
  | segment :: rest =>
      activeFrames rest (int (activeFrameCount + int (frameCount segment)))
  end.

(** Lines 142-150: a frame index of 0 resets the byte index. *)
Definition resetByteIndex (p : queuePosition) : queuePosition :=
  if frameIndex p =? 0
  then mkPosition (segmentID p) (frameIndex p) 0
  else p.

(** Lines 169-174. *)
Definition firstFreeID (initialSegments : list queueSegment) : Z :=
  match last (A := queueSegment) initialSegments with
  | Some s => uint64 (id s + 1)
  | None => 0
  end.

(** Lines 195-199. *)
Definition advancePosition (initialSegments : list queueSegment)
    (p : queuePosition) : queuePosition :=
  match initialSegments with
  | first :: _ =>
      if segmentID p <? id first then mkPosition (id first) 0 0 else p
  | [] => p
  end.

(** ** [NewQueue] *)

(** Lines 116-118: the observer [NewQueue] reports to. *)
Definition observerOf (o : option nat) : observerRef :=
  match o with
  | Some o => CallerObserver o
  | None => NewQueueObserver
  end.

Definition NewQueue (fs : filesystem) (observer : option nat)
    (settings : Settings) (encoderFactory : option Encoder) : M diskQueue :=
  emit (Debugf "Initializing disk queue at path %v") ;;
  let observer := observerOf observer in
  (if (0 <? MaxBufferSize settings)
      && (MaxBufferSize settings <? uint64 (MaxSegmentSize settings * 2))
   then fail (Errorf
     "disk queue buffer size (%v) must be at least twice the segment size (%v)"
     [MaxBufferSize settings; MaxSegmentSize settings])
   else mret tt) ;;
  emit (ObserverMaxBytes observer (int (MaxBufferSize settings))) ;;
  (match os_MkdirAll fs (directoryPath settings) with
   | Some err =>
       fail (ErrorfW "couldn't create disk queue directory: %w" err)
   | None => mret tt
   end) ;;
  let (nextReadPosition, err) :=
    queuePositionFromPath fs (stateFilePath settings) in
  (match err with
   | Some err =>
       if negb (errors_Is_ErrNotExist err)
       then emit (Warnf "Couldn't load most recent queue position: %v" err)
       else mret tt
   | None => mret tt
   end) ;;
  let nextReadPosition := resetByteIndex nextReadPosition in
  let (positionFile, err) := os_OpenFile fs (stateFilePath settings) in
  (match err with
   | Some err =>
       fail (ErrorfW "couldn't write to state file: %w" err)
   | None => mret tt
   end) ;;
  let (initialSegments, err) :=
    scanExistingSegments fs (directoryPath settings) in
  (match err with
   | Some err => fail err
   | None => mret tt
   end) ;;
  let nextSegmentID := firstFreeID initialSegments in
  let (initialEventCount, initialByteCount) :=
    initialCounts initialSegments 0 0 in
  emit (ObserverRestore observer initialEventCount initialByteCount) ;;
  let readSegmentID := segmentID nextReadPosition in
  let (ackedSegments, initialSegments) :=
    moveAcked readSegmentID [] initialSegments in
  let nextReadPosition := advancePosition initialSegments nextReadPosition in
  let activeFrameCount :=
    int (activeFrames initialSegments 0 - int (frameIndex nextReadPosition)) in
  emit (Infof
    "Found %v queued events consuming %v bytes, %v events still pending"
    [initialEventCount; initialByteCount; activeFrameCount]) ;;
  (* [encoderFactory()], the factory being kept as the encoder it makes *)
  let encoder := encoderFactory in
  producerWriteRequestChan ← make_chan 0;
  close ← make_chan 0;
  done ← make_chan 0;
  let queue :=
    {| observer := observer;
       settings := settings;
       segments := mkSegments initialSegments ackedSegments nextSegmentID
                     (byteIndex nextReadPosition);
       acks := mkACKs nextReadPosition positionFile;
       readerLoop := (settings, encoder);
       writerLoop := settings;
       deleterLoop := settings;
       writing := false;
       writeRequestSize := 0;
       reading_ := false;
       deleting := false;
       producerWriteRequestChan := producerWriteRequestChan;
       close := close;
       done := done |} in
  emit (GoRun "readerLoop.run") ;;
  emit (GoRun "writerLoop.run") ;;
  emit (GoRun "deleterLoop.run") ;;
  emit (GoRun "queue.run") ;;
  mret queue.

(** ** [diskQueue.Close]

    [close(dq.close); return nil].  The outcome is the returned error
    ([None] is [nil]) and the new heap, or a panic. *)

Inductive closeResult : Type :=
| CloseReturned (err : option error) (h : heap unit)
| ClosePanicked.

Definition Close (dq : diskQueue) (h : heap unit) : closeResult :=
  match Go.close h (close dq) with
  | Some h' => CloseReturned None h'
  | None => ClosePanicked
  end.

(** ** Vocabulary for the statements about [NewQueue] *)

(** The warning of line 140, if any. *)
Definition loadWarning (err : option error) : list effect :=
  match err with
  | Some e =>
      if errors_Is_ErrNotExist e then []
      else [Warnf "Couldn't load most recent queue position: %v" e]
  | None => []
  end.

(** The capacity check of lines 120-121 lets these settings through. *)
Definition sizeCheckPasses (settings : Settings) : Prop :=
  (0 <? MaxBufferSize settings)
  && (MaxBufferSize settings <? uint64 (MaxSegmentSize settings * 2)) = false.

(** The directory can be made, the state file opened for writing and the
    segments listed. *)
Definition diskReady (fs : filesystem) (settings : Settings) : Prop :=
  os_MkdirAll fs (directoryPath settings) = None
  /\ snd (os_OpenFile fs (stateFilePath settings)) = None
  /\ snd (scanExistingSegments fs (directoryPath settings)) = None.

Definition Zsum (l : list Z) : Z := fold_right Z.add 0 l.

Definition isRestore (e : effect) : bool :=
  match e with
  | ObserverRestore _ _ _ => true
  | _ => false
  end.

Definition isWarnf (e : effect) : bool :=
  match e with
  | Warnf _ _ => true
  | _ => false
  end.

(** ** The rest of the [queue.Queue] interface (lines 94-103, 259-278) *)

(** [FactoryForSettings]: the factory hands its logger, observer and
    encoder factory to [NewQueue] with the settings it was made for; its
    [inputQueueSize] goes nowhere. *)
Definition FactoryForSettings (fs : filesystem) (settings : Settings)
    (observer : option nat) (inputQueueSize : Z)
    (encoderFactory : option Encoder) : M diskQueue :=
  NewQueue fs observer settings encoderFactory.

(** [diskQueue.Done] *)
Definition Done (dq : diskQueue) : chanref := done dq.

(** [QueueType] and [diskQueue.QueueType] *)
Definition QueueType : string := "disk".

(** [diskQueue.BufferConfig]: the [MaxEvents] of the returned
    [queue.BufferConfig]. *)
Definition BufferConfig (dq : diskQueue) : Z := 0.

(** [queue.ProducerConfig], and the event encoding [Producer] asks for. *)
Variable ProducerConfig : Type.

Inductive SerializationFormat : Type :=
| SerializationCBOR.

(** [diskQueueProducer] as [diskQueue.Producer] fills it in:
    [newEventEncoder(format)] is kept as its argument. *)
Record diskQueueProducer : Type := mkProducer {
  dqp_queue : diskQueue;
  dqp_config : ProducerConfig;
  dqp_encoder : SerializationFormat;
  dqp_done : chanref
}.

(** [diskQueue.Producer] *)
Definition Producer (dq : diskQueue) (cfg : ProducerConfig) (h : heap unit)
    : diskQueueProducer * heap unit :=
  let (done, h') := make 0 h in
  ({| dqp_queue := dq;
      dqp_config := cfg;
      dqp_encoder := SerializationCBOR;
      dqp_done := done |}, h').

(** ** More vocabulary for statements about [NewQueue] *)

(** The loops started, in order. *)
Definition loopsStarted (l : list effect) : list string :=
  flat_map (fun e => match e with GoRun loop => [loop] | _ => [] end) l.

(** The numbers of the [Infof] lines. *)
Definition infoLines (l : list effect) : list (list Z) :=
  flat_map (fun e => match e with Infof _ args => [args] | _ => [] end) l.

(** The error of the first of the three file system calls that fails. *)
Definition firstCause (fs : filesystem) (settings : Settings)
    : option error :=
  match os_MkdirAll fs (directoryPath settings) with
  | Some e => Some e
  | None =>
      match snd (os_OpenFile fs (stateFilePath settings)) with
      | Some e => Some e
      | None => snd (scanExistingSegments fs (directoryPath settings))
      end
  end.

End NewQueue.

(** ** A queue directory to run [NewQueue] on

    Three segments (IDs 1, 3 and 4) and a state file pointing into
    segment 2, which is gone. *)

Definition sampleHeaderSize (seg : queueSegment) : Z := 12.

Definition sampleDirectory (settings : Settings) : string := "data/diskqueue".

Definition sampleStateFile (settings : Settings) : string :=
  "data/diskqueue/state.dat".

Definition sampleSegments : list queueSegment :=
  [mkSegment 1 (Some 1) 4 100;
   mkSegment 3 (Some 1) 5 200;
   mkSegment 4 (Some 1) 6 300].

Definition sampleDisk : filesystem :=
  mkFs (fun _ => None)
       (fun _ => (mkPosition 2 0 77, None))
       (fun _ => (Some 3%nat, None))
       (fun _ => (sampleSegments, None)).

(** The same directory without a state file. *)
Definition sampleDiskNoState : filesystem :=
  mkFs (fun _ => None)
       (fun _ => (mkPosition 0 0 0, Some ErrNotExist))
       (fun _ => (Some 3%nat, None))
       (fun _ => (sampleSegments, None)).


Definition sampleSettings : Settings := mkSettings 1000 400.

Definition emptyState : state := mkState [] [].

Abbreviation sampleNewQueue :=
  (@NewQueue sampleHeaderSize sampleDirectory sampleStateFile unit).

(** The queue [NewQueue] builds on the sample directory, and its heap. *)
Definition sampleQueue : diskQueue unit :=
  {| observer := NewQueueObserver;
     settings := sampleSettings;
     segments := mkSegments
                   [mkSegment 3 (Some 1) 5 200; mkSegment 4 (Some 1) 6 300]
                   [mkSegment 1 (Some 1) 4 100] 5 0;
     acks := mkACKs (mkPosition 3 0 0) (Some 3%nat);
     readerLoop := (sampleSettings, None);
     writerLoop := sampleSettings;
     deleterLoop := sampleSettings;
     writing := false;
     writeRequestSize := 0;
     reading_ := false;
     deleting := false;
     producerWriteRequestChan := Some 0%nat;
     close := Some 1%nat;
     done := Some 2%nat |}.

Definition sampleHeap : heap unit :=
  [mkChan 0 [] false; mkChan 0 [] false; mkChan 0 [] false].

End diskqueue.

(* ===================================================================== *)
(** * Memory queue producers: [publisher/queue/memqueue/internal_api.go] *)
(* ===================================================================== *)

Module memqueue.

Import Go.
Local Open Scope string_scope.
Local Open Scope list_scope.
Local Open Scope Z_scope.

Section Producer.

(** [queue.Entry] (an empty interface), [*logp.Logger] and the type of ACK
    callbacks [func(count int)]. *)
Variable Entry : Type.
Variable Logger : Type.
Variable ackHandler : Type.

(** [queue.Encoder]: [EncodeEntry(Entry) (Entry, int)]. *)
Record Encoder : Type := mkEncoder {
  EncodeEntry : Entry -> Entry * Z
}.

(** [pushRequest]; [producer] points into the store of producers ([None] is
    [nil]), [producerID] is a [uint64], [resp] a channel of entry IDs. *)
Record pushRequest : Type := mkPushRequest {
  event : Entry;
  eventSize : Z;
  producer : option nat;
  producerID : Z;
  resp : chanref
}.

(** What travels on the channels of this package. *)
Inductive value : Type :=
| VRequest (r : pushRequest)
| VEntryID (id : Z)
| VStruct.

(** The fields of [broker] that [newProducer] reads. *)
Record broker : Type := mkBroker {
  logger : Logger;
  closingChan : chanref;
  pushChan : chanref
}.

Record openState : Type := mkOpenState {
  log : Logger;
  done : chanref;
  queueClosing : chanref;
  events : chanref;
  encoder : option Encoder
}.

Record produceState : Type := mkProduceState {
  cb : option ackHandler;
  lastACK : Z
}.

Record ackProducer : Type := mkAckProducer {
  ap_broker : broker;
  producedCount : Z;
  state : produceState;
  ap_openState : openState
}.

Record forgetfulProducer : Type := mkForgetfulProducer {
  fp_broker : broker;
  fp_openState : openState
}.

(** The two implementations of [queue.Producer]. *)
Inductive producerObj : Type :=
| AckProducer (p : ackProducer)
| ForgetfulProducer (p : forgetfulProducer).

Inductive effect : Type :=
| Sent (c : chanref) (r : pushRequest)
| Debugf (msg : string).

(** The part of the Go heap the producers live in: channels, the producer
    structs behind the [queue.Producer] pointers, and what was done so far. *)
Record world : Type := mkWorld {
  chans : heap value;
  objs : list producerObj;
  trace : list effect
}.

(** ** [newProducer] *)

Definition newProducer (b : broker) (cb : option ackHandler)
    (encoder : option Encoder) (w : world) : nat * world :=
  let (done, h) := make 0 (chans w) in
  let openState := {|
    log := logger b;
    done := done;
    queueClosing := closingChan b;
    events := pushChan b;
    encoder := encoder |} in
  match cb with
  | Some _ =>
      let p := {| ap_broker := b;
                  producedCount := 0;
                  state := mkProduceState None 0;
                  ap_openState := openState |} in
      let p := {| ap_broker := ap_broker p;
                  producedCount := producedCount p;
                  state := mkProduceState cb (lastACK (state p));
                  ap_openState := ap_openState p |} in
      (length (objs w),
       mkWorld h (objs w ++ [AckProducer p]) (trace w))
  | None =>
      (length (objs w),
       mkWorld h
         (objs w ++ [ForgetfulProducer
                       {| fp_broker := b; fp_openState := openState |}])
         (trace w))
  end.

(** ** [openState.publish] and [openState.tryPublish] *)

Inductive selcase : Type :=
| SendEvents
| RecvResp
| RecvDone
| RecvQueueClosing.

Definition can_proceed (st : openState) (req : pushRequest)
    (h : heap value) (c : selcase) : bool :=
  match c with
  | SendEvents => send_ready h (events st)
  | RecvResp => recv_ready h (resp req)
  | RecvDone => recv_ready h (done st)
  | RecvQueueClosing => recv_ready h (queueClosing st)
  end.

Definition ready (cases : list selcase) (st : openState) (req : pushRequest)
    (h : heap value) : list selcase :=
  List.filter (can_proceed st req h) cases.

(** [st.events = nil] *)
Definition events_nil (st : openState) : openState :=
  {| log := log st;
     done := done st;
     queueClosing := queueClosing st;
     events := None;
     encoder := encoder st |}.

(** The entry ID read from a response channel (0, the zero value, from a
    closed one). *)
Definition entryID_of (v : option value) : Z :=
  match v with
  | Some (VEntryID id) => id
  | _ => 0
  end.

(** A call returns a pair [(queue.EntryID, bool)], is still waiting when the
    window of observed moments ends, or panics.  [st'] is the receiver after
    the call, [effs] what the call did. *)
Inductive outcome : Type :=
| Returned (id : Z) (ok : bool) (st' : openState) (h : heap value)
    (effs : list effect) (rest : list (moment value))
| Blocked (st' : openState) (h : heap value) (effs : list effect)
| Panicked.

(** [if st.encoder != nil { req.event, req.eventSize = ... }] *)
Definition encode (st : openState) (req : pushRequest) : pushRequest :=
  match encoder st with
  | Some enc =>
      let (ev, size) := EncodeEntry enc (event req) in
      {| event := ev;
         eventSize := size;
         producer := producer req;
         producerID := producerID req;
         resp := resp req |}
  | None => req
  end.

(** The inner [select] (lines 189-195 and, with the same text,
    217-223): wait for the broker's response or for the queue to close. *)
Definition awaitResponse (st : openState) (req : pushRequest)
    (h : heap value) (effs : list effect) (tl : list (moment value))
    : outcome :=
  match select_wait (ready [RecvResp; RecvQueueClosing] st req) false h tl with
  | Fired RecvResp h' rest =>
      let (v, h'') := recv h' (resp req) in
      Returned (entryID_of v) true st h'' effs rest
  | Fired _ h' rest =>
      let (_, h'') := recv h' (queueClosing st) in
      Returned 0 false (events_nil st) h'' effs rest
  | FellThrough h' _ => Blocked st h' effs
  | Parked h' => Blocked st h' effs
  end.

Definition publish (st : openState) (req : pushRequest) (h : heap value)
    (tl : list (moment value)) : outcome :=
  let req := encode st req in
  match
    select_wait (ready [SendEvents; RecvDone; RecvQueueClosing] st req)
      false h tl
  with
  | Fired SendEvents h' rest =>
      match send h' (events st) (VRequest req) with
      | Some h'' => awaitResponse st req h'' [Sent (events st) req] rest
      | None => Panicked
      end
  | Fired RecvDone h' rest =>
      let (_, h'') := recv h' (done st) in
      Returned 0 false (events_nil st) h'' [] rest
  | Fired _ h' rest =>
      let (_, h'') := recv h' (queueClosing st) in
      Returned 0 false (events_nil st) h'' [] rest
  | FellThrough h' _ => Blocked st h' []
  | Parked h' => Blocked st h' []
  end.

Definition tryPublish (st : openState) (req : pushRequest) (h : heap value)
    (tl : list (moment value)) : outcome :=
  let req := encode st req in
  match
    select_wait (ready [SendEvents; RecvDone] st req) true h tl
  with
  | Fired SendEvents h' rest =>
      match send h' (events st) (VRequest req) with
      | Some h'' => awaitResponse st req h'' [Sent (events st) req] rest
      | None => Panicked
      end
  | Fired _ h' rest =>
      let (_, h'') := recv h' (done st) in
      Returned 0 false (events_nil st) h'' [] rest
  | FellThrough h' rest =>
      Returned 0 false st h' [Debugf "Dropping event, queue is blocked"] rest
  | Parked h' => Blocked st h' []
  end.

(** [openState.Close]: [close(st.done)]; [None] is a panic. *)
Definition openState_Close (st : openState) (h : heap value)
    : option (heap value) :=
  Go.close h (done st).

(** ** The producers' methods *)

Definition forgetfulProducer_makePushRequest (event : Entry)
    (h : heap value) : pushRequest * heap value :=
  let (resp, h') := make 1 h in
  ({| event := event;
      eventSize := 0;
      producer := None;
      producerID := 0;
      resp := resp |}, h').

Definition ackProducer_makePushRequest (self : nat) (p : ackProducer)
    (event : Entry) (h : heap value) : pushRequest * heap value :=
  let (resp, h') := make 1 h in
  ({| event := event;
      eventSize := 0;
      producer := Some self;
      producerID := uint64 (producedCount p + 1);
      resp := resp |}, h').

(** What a method call on a producer pointer yields. *)
Inductive callResult : Type :=
| CallReturned (id : Z) (ok : bool) (w : world)
| CallBlocked (w : world)
| CallPanicked.

Definition set_openState (o : producerObj) (st : openState) : producerObj :=
  match o with
  | AckProducer p =>
      AckProducer {| ap_broker := ap_broker p;
                     producedCount := producedCount p;
                     state := state p;
                     ap_openState := st |}
  | ForgetfulProducer p =>
      ForgetfulProducer {| fp_broker := fp_broker p; fp_openState := st |}
  end.

(** [p.producedCount++] *)
Definition incr_producedCount (o : producerObj) : producerObj :=
  match o with
  | AckProducer p =>
      AckProducer {| ap_broker := ap_broker p;
                     producedCount := uint64 (producedCount p + 1);
                     state := state p;
                     ap_openState := ap_openState p |}
  | ForgetfulProducer p => ForgetfulProducer p
  end.

Inductive method : Type :=
| MPublish
| MTryPublish.

Definition openState_call (m : method) :=
  match m with
  | MPublish => publish
  | MTryPublish => tryPublish
  end.

(** [forgetfulProducer.Publish] and [forgetfulProducer.TryPublish]. *)
Definition forgetfulProducer_call (m : method) (self : nat)
    (p : forgetfulProducer) (event : Entry) (w : world)
    (tl : list (moment value)) : callResult :=
  let (req, h) := forgetfulProducer_makePushRequest event (chans w) in
  match openState_call m (fp_openState p) req h tl with
  | Returned id published st' h' effs _ =>
      CallReturned id published
        (mkWorld h' (<[self := set_openState (ForgetfulProducer p) st']> (objs w))
           (trace w ++ effs))
  | Blocked st' h' effs =>
      CallBlocked
        (mkWorld h' (<[self := set_openState (ForgetfulProducer p) st']> (objs w))
           (trace w ++ effs))
  | Panicked => CallPanicked
  end.

(** [ackProducer.Publish] and [ackProducer.TryPublish]:
    [if published { p.producedCount++ }]. *)
Definition ackProducer_call (m : method) (self : nat) (p : ackProducer)
    (event : Entry) (w : world) (tl : list (moment value)) : callResult :=
  let (req, h) := ackProducer_makePushRequest self p event (chans w) in
  match openState_call m (ap_openState p) req h tl with
  | Returned id published st' h' effs _ =>
      let o := set_openState (AckProducer p) st' in
      let o := if published then incr_producedCount o else o in
      CallReturned id published
        (mkWorld h' (<[self := o]> (objs w)) (trace w ++ effs))
  | Blocked st' h' effs =>
      CallBlocked
        (mkWorld h' (<[self := set_openState (AckProducer p) st']> (objs w))
           (trace w ++ effs))
  | Panicked => CallPanicked
  end.

(** A call through the [queue.Producer] interface; a dangling or [nil]
    pointer panics. *)
Definition Producer_call (m : method) (self : nat) (event : Entry)
    (w : world) (tl : list (moment value)) : callResult :=
  match objs w !! self with
  | Some (AckProducer p) => ackProducer_call m self p event w tl
  | Some (ForgetfulProducer p) => forgetfulProducer_call m self p event w tl
  | None => CallPanicked
  end.

(** The four methods under their own names (lines 130-136, 153-167). *)
Definition forgetfulProducer_Publish := forgetfulProducer_call MPublish.
Definition forgetfulProducer_TryPublish := forgetfulProducer_call MTryPublish.
Definition ackProducer_Publish := ackProducer_call MPublish.
Definition ackProducer_TryPublish := ackProducer_call MTryPublish.

(** [Producer.Publish] and [Producer.TryPublish]. *)
Definition Publish := Producer_call MPublish.
Definition TryPublish := Producer_call MTryPublish.

(** The [openState] field of either producer. *)
Definition openState_of (o : producerObj) : openState :=
  match o with
  | AckProducer p => ap_openState p
  | ForgetfulProducer p => fp_openState p
  end.

(** [ackProducer.Close] and [forgetfulProducer.Close]:
    [p.openState.Close()]; [None] is a panic. *)
Definition Producer_Close (self : nat) (w : world) : option world :=
  match objs w !! self with
  | Some o =>
      match openState_Close (openState_of o) (chans w) with
      | Some h => Some (mkWorld h (objs w) (trace w))
      | None => None
      end
  | None => None
  end.

(** ** A goroutine publishing through one producer

    The calls are made one after the other, each watched over its own window
    of moments; the run ends with the first call that does not return. *)

Record call : Type := mkCall {
  c_method : method;
  c_event : Entry;
  c_window : list (moment value)
}.

(** What one call did: the producer's counter before it, the requests it
    sent, what it returned, and the counter after it. *)
Record callRecord : Type := mkRecord {
  r_before : Z;
  r_sent : list pushRequest;
  r_id : Z;
  r_accepted : bool;
  r_after : Z
}.

Definition producedCount_at (w : world) (self : nat) : Z :=
  match objs w !! self with
  | Some (AckProducer p) => producedCount p
  | _ => 0
  end.

Definition sent_requests (effs : list effect) : list pushRequest :=
  flat_map (fun e => match e with Sent _ r => [r] | Debugf _ => [] end) effs.

Fixpoint run (self : nat) (w : world) (calls : list call)
    : list callRecord :=
  match calls with
  | [] => []
  | c :: calls' =>
      match Producer_call (c_method c) self (c_event c) w (c_window c) with
      | CallReturned id ok w' =>
          mkRecord (producedCount_at w self)
            (sent_requests (drop (length (trace w)) (trace w')))
            id ok (producedCount_at w' self)
          :: run self w' calls'
      | _ => []
      end
  end.

(** The calls of a run that returned accepted, and the producer IDs their
    requests carried. *)
Definition accepted (rs : list callRecord) : list callRecord :=
  List.filter r_accepted rs.

Definition accepted_ids (rs : list callRecord) : list Z :=
  flat_map (fun r => map producerID (r_sent r)) (accepted rs).

(** ** Vocabulary for the statements about producers *)

(** The open state both kinds of producer are given. *)
Definition sharedOpenState (b : broker) (encoder : option Encoder)
    (w : world) : openState :=
  {| log := logger b;
     done := Some (length (chans w));
     queueClosing := closingChan b;
     events := pushChan b;
     encoder := encoder |}.

(** The queue is closing, or the producer has been closed. *)
Definition shutting_down (st : openState) (h : heap value) : bool :=
  is_closed h (done st) || is_closed h (queueClosing st).

(** What every call of a run on the producer at [self] must satisfy: its
    requests carry the producer and the counter plus one, and the counter
    moves by one exactly if the call is accepted, after one send. *)
Definition carries (self : nat) (r : callRecord) : Prop :=
  Forall (fun q => producer q = Some self
                   /\ producerID q = uint64 (r_before r + 1)) (r_sent r)
  /\ r_after r
     = (if r_accepted r then uint64 (r_before r + 1) else r_before r)
  /\ (r_accepted r = true -> length (r_sent r) = 1%nat).

(** The same producer, before and after a call: of the same kind, with the
    same broker, callback and last ACK, and the same open state but for
    [events], which is as before or [nil]. *)
Definition same_producer (o o' : producerObj) : Prop :=
  match o, o' with
  | AckProducer p, AckProducer p' =>
      ap_broker p' = ap_broker p /\ state p' = state p
  | ForgetfulProducer p, ForgetfulProducer p' => fp_broker p' = fp_broker p
  | _, _ => False
  end
  /\ log (openState_of o') = log (openState_of o)
  /\ done (openState_of o') = done (openState_of o)
  /\ queueClosing (openState_of o') = queueClosing (openState_of o)
  /\ encoder (openState_of o') = encoder (openState_of o)
  /\ (events (openState_of o') = events (openState_of o)
      \/ events (openState_of o') = None).

(** The event and size a request must hold for an event handed to a
    producer with this open state. *)
Definition encoded (st : openState) (event : Entry) : Entry * Z :=
  match encoder st with
  | Some enc => EncodeEntry enc event
  | None => (event, 0)
  end.

(** All requests sent in a run. *)
Definition all_sent (rs : list callRecord) : list pushRequest :=
  flat_map r_sent rs.

End Producer.

Arguments VEntryID {Entry} id.
Arguments VStruct {Entry}.
Arguments Debugf {Entry} msg.
Arguments ForgetfulProducer {Entry Logger ackHandler} p.
Arguments Panicked {Entry Logger}.
Arguments CallPanicked {Entry Logger ackHandler}.

(** ** A broker to publish to

    Events are numbers.  Channel 0 is the broker's push channel, with room
    for one request, channel 1 its closing channel; the producer made first
    gets channel 2 as its done channel, and its requests get the response
    channels 3, 4, 5, ... *)

Definition sampleChans : heap (value nat) :=
  [mkChan 1 [] false; mkChan 0 [] false].

Definition sampleBroker : broker unit :=
  mkBroker tt (Some 1%nat) (Some 0%nat).

Definition sampleWorld : world nat unit nat :=
  mkWorld sampleChans [] [].

(** A request of some other producer. *)
Definition otherRequest : pushRequest nat :=
  mkPushRequest 99%nat 0 None 0 None.

(** The world with one ACK-tracking producer, at pointer 0. *)
Definition producerWorld : world nat unit nat :=
  snd (newProducer sampleBroker (Some 7%nat) None sampleWorld).

Definition sampleState : openState nat unit :=
  mkOpenState tt (Some 2%nat) (Some 1%nat) (Some 0%nat) None.

Definition sampleRequest : pushRequest nat :=
  mkPushRequest 5%nat 0 (Some 0%nat) 1 (Some 3%nat).

(** The channels at the time of a call's first look: push, closing and done
    channel, and the response channel of [sampleRequest]. *)
Definition callChans : heap (value nat) :=
  [mkChan 1 [] false; mkChan 0 [] false; mkChan 0 [] false;
   mkChan 1 [] false].

Definition sampleProducer : ackProducer nat unit nat :=
  mkAckProducer sampleBroker 0 (mkProduceState (Some 7%nat) 0) sampleState.

(** The world after the producer's [Close]: its done channel is closed. *)
Definition closedWorld : world nat unit nat :=
  mkWorld [mkChan 1 [] false; mkChan 0 [] false; mkChan 0 [] true]
    [AckProducer sampleProducer] [].

(** Three calls: a [Publish] the broker accepts with entry ID 10, a
    [TryPublish] that finds the push channel full, and a [Publish] accepted
    with entry ID 12. *)
Definition sampleCalls : list (call nat) :=
  [mkCall MPublish 5%nat
     [([], 0%nat);
      ([EnvRecv _ 0%nat; EnvSend 3%nat (VEntryID 10)], 0%nat)];
   mkCall MTryPublish 6%nat
     [([EnvSend 0%nat (VRequest otherRequest)], 0%nat)];
   mkCall MPublish 7%nat
     [([EnvRecv _ 0%nat], 0%nat);
      ([EnvRecv _ 0%nat; EnvSend 5%nat (VEntryID 12)], 0%nat)]].

(** The push channel holding the request of another producer: it is
    full. *)
Definition fullChans : heap (value nat) :=
  [mkChan 1 [VRequest otherRequest] false; mkChan 0 [] false;
   mkChan 0 [] false; mkChan 1 [] false].

(** The broker takes the request and answers with entry ID 10. *)
Definition answeredWindow : list (moment (value nat)) :=
  [([], 0%nat); ([EnvRecv _ 0%nat; EnvSend 3%nat (VEntryID 10)], 0%nat)].

End memqueue.

(* ===================================================================== *)
(** * Properties of the Go runtime model *)
(* ===================================================================== *)

Module GoFacts.

Import Go.
Local Open Scope Z_scope.

Lemma int_small (z : Z) : - 2 ^ 63 <= z < 2 ^ 63 -> int z = z.
Proof.
  intros Hz. unfold int, wrap_signed, int_bits.
  change (64 - 1) with 63. rewrite Z.mod_small; lia.
Qed.

Lemma int_add_l (a b : Z) : int (int a + b) = int (a + b).
Proof.
  unfold int, wrap_signed, int_bits. f_equal.
  replace ((a + 2 ^ (64 - 1)) mod 2 ^ 64 - 2 ^ (64 - 1) + b + 2 ^ (64 - 1))
    with ((a + 2 ^ (64 - 1)) mod 2 ^ 64 + b) by ring.
  rewrite Zplus_mod_idemp_l. f_equal. ring.
Qed.

Lemma int_add_r (a b : Z) : int (a + int b) = int (a + b).
Proof. rewrite (Z.add_comm a), int_add_l. f_equal. ring. Qed.

Lemma int_uint64 (z : Z) : int (uint64 z) = int z.
Proof.
  unfold int, uint64, wrap_signed, wrap_unsigned, int_bits. f_equal.
  rewrite Zplus_mod_idemp_l. reflexivity.
Qed.

Lemma uint64_small (z : Z) : 0 <= z < 2 ^ 64 -> uint64 z = z.
Proof. intros Hz. unfold uint64, wrap_unsigned. apply Z.mod_small. exact Hz. Qed.

(** ** [select] *)

Lemma go_select_nil {A : Type} (d : bool) (pick : nat) :
  go_select (@nil A) d pick = if d then Default else Wait.
Proof. reflexivity. Qed.

Lemma go_select_one {A : Type} (a : A) (d : bool) (pick : nat) :
  go_select [a] d pick = Chosen a.
Proof.
  unfold go_select. cbn [length]. rewrite Nat.mod_1_r. reflexivity.
Qed.

Section SelectWait.

Variable V : Type.
Variable A : Type.
Variable ready : heap V -> list A.

(** A goroutine parked on a [select] over [tl1] goes on watching. *)
Lemma select_wait_app_parked d h tl1 tl2 h1 :
  select_wait ready d h tl1 = Parked h1 ->
  select_wait ready d h (tl1 ++ tl2) = select_wait ready d h1 tl2.
Proof.
  revert h. induction tl1 as [|[acts pick] tl1 IH]; intros h; simpl.
  - intros [= <-]. reflexivity.
  - destruct (go_select (ready (env_run h acts)) d pick);
      try discriminate. apply IH.
Qed.

(** A [select] that fired within [tl1] is not affected by what follows. *)
Lemma select_wait_app_fired d h tl1 tl2 a h1 rest :
  select_wait ready d h tl1 = Fired a h1 rest ->
  select_wait ready d h (tl1 ++ tl2) = Fired a h1 (rest ++ tl2).
Proof.
  revert h. induction tl1 as [|[acts pick] tl1 IH]; intros h; simpl.
  - discriminate.
  - destruct (go_select (ready (env_run h acts)) d pick);
      try discriminate.
    + intros [= <- <- <-]. reflexivity.
    + apply IH.
Qed.

(** Without a [default] case a [select] never falls through. *)
Lemma select_wait_no_default h tl h1 rest :
  select_wait ready false h tl <> FellThrough h1 rest.
Proof.
  revert h. induction tl as [|[acts pick] tl IH]; intros h; simpl.
  - discriminate.
  - destruct (go_select (ready (env_run h acts)) false pick) eqn:Hsel.
    + discriminate.
    + destruct (ready (env_run h acts)); discriminate.
    + apply IH.
Qed.

End SelectWait.

End GoFacts.

(* ===================================================================== *)
(** * Properties of the disk queue *)
(* ===================================================================== *)

Module diskqueue_props.

Import Go GoFacts diskqueue.
Local Open Scope string_scope.
Local Open Scope list_scope.
Local Open Scope Z_scope.

Section Props.

Variable headerSize : queueSegment -> Z.
Variable directoryPath : Settings -> string.
Variable stateFilePath : Settings -> string.
Variable Encoder : Type.

Abbreviation NewQueue :=
  (@diskqueue.NewQueue headerSize directoryPath stateFilePath Encoder).
Abbreviation diskReady := (diskqueue.diskReady directoryPath stateFilePath).

Lemma NewQueue_size_error fs o settings ef s :
  (0 <? MaxBufferSize settings)
  && (MaxBufferSize settings <? uint64 (MaxSegmentSize settings * 2)) = true ->
  NewQueue fs o settings ef s =
    (mkState (chans s)
       (trace s ++ [Debugf "Initializing disk queue at path %v"]),
     inl (Errorf
       "disk queue buffer size (%v) must be at least twice the segment size (%v)"
       [MaxBufferSize settings; MaxSegmentSize settings])).
Proof.
  intros Hc. unfold diskqueue.NewQueue, mbind, M_bind, emit, fail. simpl.
  rewrite Hc. reflexivity.
Qed.

(** The run of [NewQueue] when nothing fails, spelled out. *)
Lemma NewQueue_run fs o settings ef s :
  sizeCheckPasses settings -> diskReady fs settings ->
  let loaded := queuePositionFromPath fs (stateFilePath settings) in
  let found := fst (scanExistingSegments fs (directoryPath settings)) in
  let position := resetByteIndex (fst loaded) in
  let counts := initialCounts headerSize found 0 0 in
  let split := moveAcked (segmentID position) [] found in
  let position' := advancePosition (snd split) position in
  let h := chans s in
  NewQueue fs o settings ef s =
    (mkState
       (h ++ [mkChan 0 [] false; mkChan 0 [] false; mkChan 0 [] false])
       (trace s
        ++ [Debugf "Initializing disk queue at path %v";
            ObserverMaxBytes (observerOf o) (int (MaxBufferSize settings))]
        ++ loadWarning (snd loaded)
        ++ [ObserverRestore (observerOf o) (fst counts) (snd counts);
            Infof
              "Found %v queued events consuming %v bytes, %v events still pending"
              [fst counts; snd counts;
               int (activeFrames (snd split) 0 - int (frameIndex position'))];
            GoRun "readerLoop.run"; GoRun "writerLoop.run";
            GoRun "deleterLoop.run"; GoRun "queue.run"]),
     inr {| observer := observerOf o;
            settings := settings;
            segments := mkSegments (snd split) (fst split) (firstFreeID found)
                          (byteIndex position');
            acks := mkACKs position'
                      (fst (os_OpenFile fs (stateFilePath settings)));
            readerLoop := (settings, ef);
            writerLoop := settings;
            deleterLoop := settings;
            writing := false;
            writeRequestSize := 0;
            reading_ := false;
            deleting := false;
            producerWriteRequestChan := Some (length h);
            close := Some (S (length h));
            done := Some (S (S (length h))) |}).
Proof.
  intros Hc (Hmk & Hop & Hsc). unfold sizeCheckPasses in Hc.
  unfold diskqueue.NewQueue, mbind, M_bind, mret, M_ret, emit, fail,
    make_chan, make.
  simpl. rewrite Hc, Hmk. simpl.
  destruct (queuePositionFromPath fs (stateFilePath settings)) as [p0 e0].
  destruct (os_OpenFile fs (stateFilePath settings)) as [pf e1].
  destruct (scanExistingSegments fs (directoryPath settings)) as [segs e2].
  simpl in Hop, Hsc. subst e1 e2. simpl.
  destruct (initialCounts headerSize segs 0 0) as [ec bc].
  destruct (moveAcked (segmentID (resetByteIndex p0)) [] segs) as [ack rd].
  simpl.
  unfold loadWarning, observerOf.
  destruct e0 as [e0|]; [destruct (errors_Is_ErrNotExist e0)|]; simpl;
    rewrite ?length_app; simpl; rewrite <- ?app_assoc; simpl;
    rewrite ?Nat.add_1_r; reflexivity.
Qed.

(** [NewQueue] stops at line 160 when the state file cannot be opened for
    writing. *)
Lemma NewQueue_open_error fs o settings ef s e :
  sizeCheckPasses settings ->
  os_MkdirAll fs (directoryPath settings) = None ->
  snd (os_OpenFile fs (stateFilePath settings)) = Some e ->
  NewQueue fs o settings ef s =
    (mkState (chans s)
       (trace s
        ++ [Debugf "Initializing disk queue at path %v";
            ObserverMaxBytes (observerOf o) (int (MaxBufferSize settings))]
        ++ loadWarning
             (snd (queuePositionFromPath fs (stateFilePath settings)))),
     inl (ErrorfW "couldn't write to state file: %w" e)).
Proof.
  intros Hc Hmk Hop. unfold sizeCheckPasses in Hc.
  unfold diskqueue.NewQueue, mbind, M_bind, mret, M_ret, emit, fail.
  simpl. rewrite Hc, Hmk. simpl.
  destruct (queuePositionFromPath fs (stateFilePath settings)) as [p0 e0].
  destruct (os_OpenFile fs (stateFilePath settings)) as [pf e1].
  simpl in Hop. subst e1. unfold loadWarning, observerOf. simpl.
  destruct e0 as [e0|]; [destruct (errors_Is_ErrNotExist e0)|]; simpl;
    rewrite <- ?app_assoc; simpl; rewrite ?app_nil_r; reflexivity.
Qed.

(** Once the capacity check is passed, the observer is told the buffer
    size, whatever happens afterwards. *)
Lemma NewQueue_past_check fs o settings ef s :
  sizeCheckPasses settings ->
  exists rest,
    trace (fst (NewQueue fs o settings ef s)) =
      trace s
      ++ [Debugf "Initializing disk queue at path %v";
          ObserverMaxBytes (observerOf o) (int (MaxBufferSize settings))]
      ++ rest.
Proof.
  intros Hc. unfold sizeCheckPasses in Hc.
  unfold diskqueue.NewQueue, mbind, M_bind, mret, M_ret, emit, fail,
    make_chan, make.
  simpl. rewrite Hc. simpl. fold (observerOf o).
  destruct (os_MkdirAll fs (directoryPath settings)) as [e|]; simpl.
  { exists []. rewrite <- app_assoc. reflexivity. }
  destruct (queuePositionFromPath fs (stateFilePath settings)) as [p0 e0].
  destruct (os_OpenFile fs (stateFilePath settings)) as [pf e1].
  destruct (scanExistingSegments fs (directoryPath settings)) as [segs e2].
  destruct (initialCounts headerSize segs 0 0) as [ec bc].
  destruct (moveAcked (segmentID (resetByteIndex p0)) [] segs) as [ack rd].
  destruct e0 as [e0|]; [destruct (errors_Is_ErrNotExist e0)|];
    destruct e1 as [e1|]; destruct e2 as [e2|]; simpl;
    rewrite <- ?app_assoc; simpl; eexists; reflexivity.
Qed.

(** ** The loops *)

Lemma initialCounts_sums (segs : list queueSegment) (e b : Z) :
  initialCounts headerSize segs (int e) (int b) =
    (int (e + Zsum (map frameCount segs)),
     int (b + Zsum (map (fun seg => byteCount seg - headerSize seg) segs))).
Proof.
  revert e b. unfold Zsum.
  induction segs as [|seg segs IH]; intros e b;
    cbn [initialCounts map fold_right].
  - rewrite !Z.add_0_r. reflexivity.
  - rewrite (int_add_r (int e)), (int_add_l e).
    rewrite int_uint64, (int_add_r (int b)), (int_add_l b).
    rewrite IH. rewrite !Z.add_assoc. reflexivity.
Qed.

Lemma initialCounts_from_zero (segs : list queueSegment) :
  initialCounts headerSize segs 0 0 =
    (int (Zsum (map frameCount segs)),
     int (Zsum (map (fun seg => byteCount seg - headerSize seg) segs))).
Proof.
  change (initialCounts headerSize segs 0 0)
    with (initialCounts headerSize segs (int 0) (int 0)).
  rewrite initialCounts_sums, !Z.add_0_l. reflexivity.
Qed.

Lemma moveAcked_prefix (r : Z) (acc segs : list queueSegment) :
  moveAcked r acc segs =
    (acc ++ fst (moveAcked r [] segs), snd (moveAcked r [] segs)).
Proof.
  revert acc. induction segs as [|seg segs IH]; intros acc; simpl.
  - rewrite app_nil_r. reflexivity.
  - destruct (id seg <? r).
    + rewrite IH. rewrite (IH [seg]). simpl. rewrite <- app_assoc.
      reflexivity.
    + simpl. rewrite app_nil_r. reflexivity.
Qed.

(** On a list in ascending order of ID the loop of lines 190-193 separates
    exactly the segments older than the read position from the others. *)
Lemma moveAcked_sorted (r : Z) (segs : list queueSegment) :
  StronglySorted (fun a b => id a <= id b) segs ->
  moveAcked r [] segs =
    (List.filter (fun seg => id seg <? r) segs,
     List.filter (fun seg => negb (id seg <? r)) segs).
Proof.
  induction 1 as [|seg segs Hs IH Hall]; simpl; [reflexivity|].
  destruct (id seg <? r) eqn:Hlt; simpl.
  - rewrite moveAcked_prefix, IH. reflexivity.
  - apply Z.ltb_ge in Hlt.
    assert (Hrest : Forall (fun seg' => (id seg' <? r) = false) segs).
    { eapply Forall_impl; [exact Hall|]. simpl. intros seg' Hle.
      apply Z.ltb_ge. lia. }
    f_equal.
    + clear -Hrest. induction Hrest as [|x l Hx _ IHl]; simpl;
        [reflexivity|]. rewrite Hx. exact IHl.
    + f_equal. clear -Hrest. induction Hrest as [|x l Hx _ IHl]; simpl;
        [reflexivity|]. rewrite Hx. simpl. f_equal. exact IHl.
Qed.

(** ** Statements about [NewQueue] and [Close] *)

(** C2 (as amended): for segment sizes whose double fits in a [uint64],
    [NewQueue] returns the configuration error, having made no queue, when
    [0 < MaxBufferSize < 2 * MaxSegmentSize]; in every other case, a
    [MaxBufferSize] of 0 (no limit) included, the check passes and
    [NewQueue] goes on to report the buffer size to the observer. *)
Theorem NewQueue_capacity_check fs o settings ef s :
  0 <= MaxSegmentSize settings < 2 ^ 63 ->
  (0 < MaxBufferSize settings < 2 * MaxSegmentSize settings ->
   NewQueue fs o settings ef s =
     (mkState (chans s)
        (trace s ++ [Debugf "Initializing disk queue at path %v"]),
      inl (Errorf
        "disk queue buffer size (%v) must be at least twice the segment size (%v)"
        [MaxBufferSize settings; MaxSegmentSize settings])))
  /\ (~ 0 < MaxBufferSize settings < 2 * MaxSegmentSize settings ->
      exists rest,
        trace (fst (NewQueue fs o settings ef s)) =
          trace s
          ++ [Debugf "Initializing disk queue at path %v";
              ObserverMaxBytes (observerOf o) (int (MaxBufferSize settings))]
          ++ rest).
Proof.
  intros Hseg.
  assert (Hdouble : uint64 (MaxSegmentSize settings * 2)
                    = 2 * MaxSegmentSize settings).
  { rewrite uint64_small; lia. }
  split.
  - intros [Hpos Hlt]. apply NewQueue_size_error.
    rewrite Hdouble. apply andb_true_intro. split.
    + apply Z.ltb_lt. exact Hpos.
    + apply Z.ltb_lt. exact Hlt.
  - intros Hno. apply NewQueue_past_check. unfold sizeCheckPasses.
    rewrite Hdouble. apply andb_false_iff.
    destruct (Z.ltb_spec 0 (MaxBufferSize settings)) as [Hpos|Hz];
      [right | left; reflexivity].
    apply Z.ltb_ge. lia.
Qed.

(** C5: when [NewQueue] builds a queue over the segments found on disk
    (listed in ascending order of ID), every segment whose ID is below the
    persisted [segmentID] is on the acked list, all the others are left for
    reading, and if the persisted [segmentID] is below the ID of the oldest
    segment left, the read position becomes that segment's start. *)
Theorem NewQueue_old_segments_acked fs o settings ef s :
  sizeCheckPasses settings -> diskReady fs settings ->
  let found := fst (scanExistingSegments fs (directoryPath settings)) in
  let readSegmentID :=
    segmentID (fst (queuePositionFromPath fs (stateFilePath settings))) in
  StronglySorted (fun a b => id a <= id b) found ->
  exists s' q,
    NewQueue fs o settings ef s = (s', inr q)
    /\ acked (segments q)
       = List.filter (fun seg => id seg <? readSegmentID) found
    /\ reading (segments q)
       = List.filter (fun seg => negb (id seg <? readSegmentID)) found
    /\ (forall first rest,
          reading (segments q) = first :: rest ->
          readSegmentID < id first ->
          nextPosition (acks q) = mkPosition (id first) 0 0
          /\ nextReadPosition (segments q) = 0).
Proof.
  intros Hc Hd found readSegmentID Hsorted.
  eexists _, _. split; [apply NewQueue_run; assumption|].
  cbn [segments acks acked reading nextPosition nextReadPosition].
  assert (Hid : forall p, segmentID (resetByteIndex p) = segmentID p).
  { intros p. unfold resetByteIndex. destruct (frameIndex p =? 0); reflexivity. }
  rewrite Hid. fold found. fold readSegmentID.
  rewrite (moveAcked_sorted readSegmentID Hsorted). cbn [fst snd].
  split; [reflexivity|]. split; [reflexivity|].
  intros first rest Hrd Hlt. rewrite Hrd. unfold advancePosition.
  rewrite Hid. fold readSegmentID.
  apply Z.ltb_lt in Hlt. rewrite Hlt. split; reflexivity.
Qed.

(** C6: the position loaded from the state file has its [byteIndex] set to
    0 exactly when its [frameIndex] is 0, and is otherwise left as it is;
    this is the position the new queue starts from, unless it is moved to
    the start of the oldest segment left. *)
Theorem NewQueue_resets_byteIndex fs o settings ef s :
  sizeCheckPasses settings -> diskReady fs settings ->
  let loaded := fst (queuePositionFromPath fs (stateFilePath settings)) in
  resetByteIndex loaded
    = mkPosition (segmentID loaded) (frameIndex loaded)
        (if frameIndex loaded =? 0 then 0 else byteIndex loaded)
  /\ exists s' q,
       NewQueue fs o settings ef s = (s', inr q)
       /\ nextReadPosition (segments q) = byteIndex (nextPosition (acks q))
       /\ (frameIndex loaded = 0 -> byteIndex (nextPosition (acks q)) = 0)
       /\ (frameIndex loaded <> 0 ->
           (forall first rest,
              reading (segments q) = first :: rest ->
              id first <= segmentID loaded) ->
           nextPosition (acks q) = loaded).
Proof.
  intros Hc Hd loaded. split.
  { unfold resetByteIndex. destruct (frameIndex loaded =? 0);
      [reflexivity | destruct loaded; reflexivity]. }
  eexists _, _. split; [apply NewQueue_run; assumption|].
  cbn [segments acks acked reading nextPosition nextReadPosition].
  fold loaded.
  set (rd := snd (moveAcked (segmentID (resetByteIndex loaded)) []
                    (fst (scanExistingSegments fs (directoryPath settings))))).
  split; [reflexivity|]. split.
  - intros Hz. unfold advancePosition, resetByteIndex. rewrite Hz. simpl.
    destruct rd as [|first rest]; [reflexivity|].
    destruct (segmentID loaded <? id first); reflexivity.
  - intros Hnz Hstay. unfold advancePosition, resetByteIndex.
    apply Z.eqb_neq in Hnz. rewrite Hnz.
    destruct rd as [|first rest]; [reflexivity|].
    specialize (Hstay first rest eq_refl).
    apply Z.ltb_ge in Hstay. rewrite Hstay. reflexivity.
Qed.

(** C7 (as amended): with the capacity check passed and the directory in
    place, a state file that cannot be opened for writing makes [NewQueue]
    return an error and no queue, whatever reading it gave; a state file
    that could not be read (the loader then hands back the zero position
    with its error) is tolerated, silently if it does not exist and with
    one warning logged otherwise: the queue is built, all segments stay to
    be read and the position is the start of the oldest one. *)
Theorem NewQueue_state_file_asymmetry fs o settings ef s :
  sizeCheckPasses settings ->
  os_MkdirAll fs (directoryPath settings) = None ->
  (forall e,
     snd (os_OpenFile fs (stateFilePath settings)) = Some e ->
     exists s',
       NewQueue fs o settings ef s
         = (s', inl (ErrorfW "couldn't write to state file: %w" e))
       /\ chans s' = chans s)
  /\ (forall e,
        queuePositionFromPath fs (stateFilePath settings)
          = (mkPosition 0 0 0, Some e) ->
        snd (os_OpenFile fs (stateFilePath settings)) = None ->
        snd (scanExistingSegments fs (directoryPath settings)) = None ->
        let found := fst (scanExistingSegments fs (directoryPath settings)) in
        Forall (fun seg => 0 <= id seg) found ->
        exists s' q new,
          NewQueue fs o settings ef s = (s', inr q)
          /\ trace s' = trace s ++ new
          /\ List.filter isWarnf new
             = (if errors_Is_ErrNotExist e then []
                else [Warnf "Couldn't load most recent queue position: %v" e])
          /\ acked (segments q) = []
          /\ reading (segments q) = found
          /\ nextPosition (acks q)
             = match found with
               | first :: _ => mkPosition (id first) 0 0
               | [] => mkPosition 0 0 0
               end).
Proof.
  intros Hc Hmk. split.
  - intros e Hop. eexists. split;
      [apply NewQueue_open_error; eassumption | reflexivity].
  - intros e Hload Hop Hsc found Hids.
    eexists _, _, _. split;
      [apply NewQueue_run; [assumption | repeat split; assumption] |].
    cbn [trace segments acks acked reading nextPosition].
    rewrite Hload. cbn [fst snd]. fold found.
    change (resetByteIndex (mkPosition 0 0 0)) with (mkPosition 0 0 0).
    cbn [segmentID].
    assert (Hsplit : moveAcked 0 [] found = ([], found)).
    { destruct Hids as [|first rest Hfirst _]; [reflexivity|].
      simpl. apply Z.ltb_ge in Hfirst. rewrite Hfirst. reflexivity. }
    rewrite Hsplit. cbn [fst snd].
    split; [reflexivity|]. split.
    { unfold loadWarning. destruct (errors_Is_ErrNotExist e); reflexivity. }
    split; [reflexivity|]. split; [reflexivity|].
    unfold advancePosition. destruct Hids as [|first rest Hfirst _];
      [reflexivity|]. cbn [segmentID].
    destruct (Z.ltb_spec 0 (id first)) as [Hpos|Hz]; [reflexivity|].
    f_equal. lia.
Qed.

(** C8: when [NewQueue] restores the segments found on disk, it reports to
    the observer, once, the sum of their frame counts as the event count
    and the sum of their byte counts less their header sizes as the byte
    count (both sums being within the range of [int]). *)
Theorem NewQueue_restore_counts fs o settings ef s :
  sizeCheckPasses settings -> diskReady fs settings ->
  let found := fst (scanExistingSegments fs (directoryPath settings)) in
  let events := Zsum (map frameCount found) in
  let bytes :=
    Zsum (map (fun seg => byteCount seg - headerSize seg) found) in
  - 2 ^ 63 <= events < 2 ^ 63 ->
  - 2 ^ 63 <= bytes < 2 ^ 63 ->
  exists s' q new,
    NewQueue fs o settings ef s = (s', inr q)
    /\ trace s' = trace s ++ new
    /\ List.filter isRestore new
       = [ObserverRestore (observerOf o) events bytes].
Proof.
  intros Hc Hd found events bytes Hev Hby.
  eexists _, _, _. split; [apply NewQueue_run; assumption|].
  cbn [trace]. split; [reflexivity|]. fold found.
  rewrite initialCounts_from_zero. cbn [fst snd].
  fold events. fold bytes. rewrite (int_small Hev), (int_small Hby).
  unfold loadWarning.
  destruct (snd (queuePositionFromPath fs (stateFilePath settings)))
    as [e|]; [destruct (errors_Is_ErrNotExist e)|]; reflexivity.
Qed.

(** C10: [Close] on a queue whose close channel is open returns [nil] and
    changes nothing but that channel, which it closes; whenever [Close]
    returns, it returns [nil]; and a second [Close] panics. *)
Theorem Close_once (dq : diskQueue Encoder) (h : heap unit) :
  is_open h (close dq) ->
  (forall err h1, Close dq h = CloseReturned err h1 -> err = None)
  /\ exists i ch h',
       close dq = Some i
       /\ h !! i = Some ch
       /\ Close dq h = CloseReturned None h'
       /\ h' = <[i := mkChan (ch_cap ch) (ch_buf ch) true]> h
       /\ Close dq h' = ClosePanicked.
Proof.
  intros (i & ch & Hc & Hi & Hopen). split.
  - intros err h1. unfold Close. destruct (Go.close h (close dq));
      [|discriminate]. intros [= <- _]. reflexivity.
  - exists i, ch. eexists. split; [exact Hc|]. split; [exact Hi|].
    unfold Close, Go.close. rewrite Hc, Hi, Hopen.
    split; [reflexivity|]. split; [reflexivity|].
    rewrite list_lookup_insert_eq by (eapply lookup_lt_Some; exact Hi).
    reflexivity.
Qed.

End Props.

Lemma sampleSegments_sorted :
  StronglySorted (fun a b => id a <= id b) sampleSegments.
Proof.
  unfold sampleSegments.
  repeat (constructor; simpl; try lia).
Defined.

Lemma sampleSettings_pass : sizeCheckPasses sampleSettings.
Proof. reflexivity. Defined.

Lemma sampleDisk_ready :
  diskReady sampleDirectory sampleStateFile sampleDisk sampleSettings.
Proof. repeat split. Defined.

(** C2, the claim as first stated, fails: with [MaxBufferSize = 0] (no
    limit) and [MaxSegmentSize = 1] the buffer size is below twice the
    segment size, and [NewQueue] returns a queue. *)
Lemma NewQueue_capacity_check_unlimited :
  ~ (forall fs o settings ef s,
       MaxBufferSize settings < 2 * MaxSegmentSize settings ->
       exists s' e, sampleNewQueue fs o settings ef s = (s', inl e)).
Proof.
  intros H.
  destruct (H sampleDisk None (mkSettings 0 1) None emptyState)
    as (s' & e & Heq).
  - simpl. lia.
  - vm_compute in Heq. discriminate Heq.
Qed.

Lemma NewQueue_capacity_check_witness :
  (exists s' e,
     sampleNewQueue sampleDisk None (mkSettings 700 400) None emptyState
       = (s', inl e))
  /\ (exists rest,
        trace (fst (sampleNewQueue sampleDisk None sampleSettings None
                      emptyState))
          = [Debugf "Initializing disk queue at path %v";
             ObserverMaxBytes NewQueueObserver 1000] ++ rest).
Proof.
  split.
  - eexists _, _.
    apply (proj1 (@NewQueue_capacity_check sampleHeaderSize sampleDirectory
                    sampleStateFile unit sampleDisk None (mkSettings 700 400)
                    None emptyState ltac:(simpl; lia))).
    simpl. lia.
  - apply (proj2 (@NewQueue_capacity_check sampleHeaderSize sampleDirectory
                    sampleStateFile unit sampleDisk None sampleSettings
                    None emptyState ltac:(simpl; lia))).
    simpl. lia.
Defined.

Lemma NewQueue_old_segments_acked_witness :
  exists s' q,
    sampleNewQueue sampleDisk None sampleSettings None emptyState
      = (s', inr q)
    /\ acked (segments q) = [mkSegment 1 (Some 1) 4 100]
    /\ reading (segments q)
       = [mkSegment 3 (Some 1) 5 200; mkSegment 4 (Some 1) 6 300]
    /\ nextPosition (acks q) = mkPosition 3 0 0.
Proof.
  destruct (@NewQueue_old_segments_acked sampleHeaderSize sampleDirectory
              sampleStateFile unit sampleDisk None sampleSettings None
              emptyState sampleSettings_pass sampleDisk_ready
              sampleSegments_sorted)
    as (s' & q & Hrun & Hacked & Hreading & Hpos).
  exists s', q. split; [exact Hrun|]. split; [exact Hacked|].
  split; [exact Hreading|].
  apply (Hpos (mkSegment 3 (Some 1) 5 200) [mkSegment 4 (Some 1) 6 300]).
  - exact Hreading.
  - simpl. lia.
Defined.

Lemma NewQueue_resets_byteIndex_witness :
  resetByteIndex (mkPosition 2 0 77) = mkPosition 2 0 0
  /\ exists s' q,
       sampleNewQueue sampleDisk None sampleSettings None emptyState
         = (s', inr q)
       /\ byteIndex (nextPosition (acks q)) = 0.
Proof.
  destruct (@NewQueue_resets_byteIndex sampleHeaderSize sampleDirectory
              sampleStateFile unit sampleDisk None sampleSettings None
              emptyState sampleSettings_pass sampleDisk_ready)
    as (Hreset & s' & q & Hrun & _ & Hzero & _).
  split; [exact Hreset|].
  exists s', q. split; [exact Hrun | apply Hzero; reflexivity].
Defined.

(** C7, the claim as first stated, fails: the sample directory has no state
    file, [NewQueue] builds the queue all the same, and logs no warning. *)
Lemma NewQueue_missing_state_file_silent :
  ~ (forall fs o settings ef s e,
       sizeCheckPasses settings ->
       diskReady sampleDirectory sampleStateFile fs settings ->
       snd (queuePositionFromPath fs (sampleStateFile settings)) = Some e ->
       exists format,
         In (Warnf format e)
            (trace (fst (sampleNewQueue fs o settings ef s)))).
Proof.
  intros H.
  destruct (H sampleDiskNoState None sampleSettings None emptyState
              ErrNotExist sampleSettings_pass) as [format Hin].
  - repeat split.
  - reflexivity.
  - vm_compute in Hin.
    repeat (destruct Hin as [Hin | Hin]; [discriminate Hin|]).
    exact Hin.
Qed.

Lemma NewQueue_state_file_asymmetry_witness :
  exists s' q new,
    sampleNewQueue sampleDiskNoState None sampleSettings None emptyState
      = (s', inr q)
    /\ trace s' = [] ++ new
    /\ List.filter isWarnf new = []
    /\ acked (segments q) = []
    /\ reading (segments q) = sampleSegments
    /\ nextPosition (acks q) = mkPosition 1 0 0.
Proof.
  apply (proj2 (@NewQueue_state_file_asymmetry sampleHeaderSize
                  sampleDirectory sampleStateFile unit sampleDiskNoState None
                  sampleSettings None emptyState sampleSettings_pass eq_refl)
           ErrNotExist eq_refl eq_refl eq_refl).
  unfold sampleSegments. repeat (constructor; simpl; try lia).
Defined.

Lemma NewQueue_restore_counts_witness :
  exists s' q new,
    sampleNewQueue sampleDisk None sampleSettings None emptyState
      = (s', inr q)
    /\ trace s' = [] ++ new
    /\ List.filter isRestore new = [ObserverRestore NewQueueObserver 15 564].
Proof.
  apply (@NewQueue_restore_counts sampleHeaderSize sampleDirectory
           sampleStateFile unit sampleDisk None sampleSettings None
           emptyState sampleSettings_pass sampleDisk_ready);
    (split; [apply Z.leb_le | apply Z.ltb_lt]; reflexivity).
Defined.

Example sampleQueue_built :
  snd (sampleNewQueue sampleDisk None sampleSettings None emptyState)
    = inr sampleQueue
  /\ chans (fst (sampleNewQueue sampleDisk None sampleSettings None
                   emptyState)) = sampleHeap.
Proof. split; vm_compute; reflexivity. Qed.

Lemma Close_once_witness :
  Close sampleQueue sampleHeap
    = CloseReturned None
        [mkChan 0 [] false; mkChan 0 [] true; mkChan 0 [] false]
  /\ Close sampleQueue
       [mkChan 0 [] false; mkChan 0 [] true; mkChan 0 [] false]
     = ClosePanicked.
Proof.
  destruct (Close_once sampleQueue (h := sampleHeap))
    as (_ & i & ch & h' & Hc & Hi & Hret & Hh' & Hpanic).
  - exists 1%nat, (mkChan 0 [] false). repeat split.
  - injection Hc as <-. injection Hi as <-. subst h'.
    split; [exact Hret | exact Hpanic].
Defined.

End diskqueue_props.

(* ===================================================================== *)
(** * Properties of the memory queue producers *)
(* ===================================================================== *)

Module memqueue_props.

Import Go GoFacts memqueue.
Local Open Scope string_scope.
Local Open Scope list_scope.
Local Open Scope Z_scope.

Section Props.

Variable Entry : Type.
Variable Logger : Type.
Variable ackHandler : Type.

Implicit Types (st : openState Entry Logger) (req : pushRequest Entry).
Implicit Types (h : heap (value Entry)) (tl : list (moment (value Entry))).
Implicit Types (w : world Entry Logger ackHandler) (m : method).

(** ** Channels *)

Lemma is_closed_recv_ready h c :
  is_closed h c = true -> recv_ready h c = true.
Proof.
  unfold is_closed, recv_ready. destruct c as [i|]; [|discriminate].
  destruct (h !! i) as [ch|]; [|discriminate].
  intros ->. reflexivity.
Qed.

Lemma resp_encode st req : resp (encode st req) = resp req.
Proof.
  unfold encode. destruct (encoder st) as [enc|]; [|reflexivity].
  destruct (EncodeEntry enc (event req)). reflexivity.
Qed.

Lemma producerID_encode st req : producerID (encode st req) = producerID req.
Proof.
  unfold encode. destruct (encoder st) as [enc|]; [|reflexivity].
  destruct (EncodeEntry enc (event req)). reflexivity.
Qed.

Lemma producer_encode st req : producer (encode st req) = producer req.
Proof.
  unfold encode. destruct (encoder st) as [enc|]; [|reflexivity].
  destruct (EncodeEntry enc (event req)). reflexivity.
Qed.

(** ** The first look of each [select] *)

Lemma publish_first st req h acts pick tl :
  publish st req h ((acts, pick) :: tl) =
    let req' := encode st req in
    let h1 := env_run h acts in
    match
      go_select (ready [SendEvents; RecvDone; RecvQueueClosing] st req' h1)
        false pick
    with
    | Chosen SendEvents =>
        match send h1 (events st) (VRequest req') with
        | Some h2 => awaitResponse st req' h2 [Sent (events st) req'] tl
        | None => Panicked
        end
    | Chosen RecvDone =>
        Returned 0 false (events_nil st) (snd (recv h1 (done st))) [] tl
    | Chosen _ =>
        Returned 0 false (events_nil st) (snd (recv h1 (queueClosing st)))
          [] tl
    | Default => Blocked st h1 []
    | Wait => publish st req h1 tl
    end.
Proof.
  unfold publish. cbn [select_wait]. cbv zeta.
  destruct (go_select _ false pick) as [[| | |]| |]; try reflexivity;
    match goal with
    | |- context [recv ?a ?b] => destruct (recv a b); reflexivity
    end.
Qed.

Lemma tryPublish_first st req h acts pick tl :
  tryPublish st req h ((acts, pick) :: tl) =
    let req' := encode st req in
    let h1 := env_run h acts in
    match go_select (ready [SendEvents; RecvDone] st req' h1) true pick with
    | Chosen SendEvents =>
        match send h1 (events st) (VRequest req') with
        | Some h2 => awaitResponse st req' h2 [Sent (events st) req'] tl
        | None => Panicked
        end
    | Chosen _ =>
        Returned 0 false (events_nil st) (snd (recv h1 (done st))) [] tl
    | Default =>
        Returned 0 false st h1 [Debugf "Dropping event, queue is blocked"] tl
    | Wait => Blocked st h1 []
    end.
Proof.
  unfold tryPublish. cbn [select_wait]. cbv zeta.
  destruct (go_select _ true pick) as [[| | |]| |] eqn:Hsel;
    try reflexivity;
    try (destruct (recv (env_run h acts) (done st)); reflexivity).
  exfalso. unfold go_select in Hsel.
  destruct (ready _ _ _ _); discriminate.
Qed.

Lemma awaitResponse_first st req h effs acts pick tl :
  awaitResponse st req h effs ((acts, pick) :: tl) =
    let h1 := env_run h acts in
    match go_select (ready [RecvResp; RecvQueueClosing] st req h1) false pick
    with
    | Chosen RecvResp =>
        Returned (entryID_of (fst (recv h1 (resp req)))) true st
          (snd (recv h1 (resp req))) effs tl
    | Chosen _ =>
        Returned 0 false (events_nil st) (snd (recv h1 (queueClosing st)))
          effs tl
    | Default => Blocked st h1 effs
    | Wait => awaitResponse st req h1 effs tl
    end.
Proof.
  unfold awaitResponse. cbn [select_wait]. cbv zeta.
  destruct (go_select _ false pick) as [[| | |]| |]; try reflexivity;
    try (destruct (recv (env_run h acts) (queueClosing st)); reflexivity).
  destruct (recv (env_run h acts) (resp req)); reflexivity.
Qed.

Lemma go_select_two {A : Type} (a b : A) (d : bool) (pick : nat) :
  go_select [a; b] d pick = Chosen a \/ go_select [a; b] d pick = Chosen b.
Proof.
  unfold go_select. cbn [length].
  pose proof (Nat.mod_upper_bound pick 2 ltac:(discriminate)) as Hlt.
  destruct (pick mod 2)%nat as [|[|n]]; [left | right | lia]; reflexivity.
Qed.

(** ** What a waiting call has done *)

Lemma awaitResponse_blocked st req h effs tl st1 h1 effs1 :
  awaitResponse st req h effs tl = Blocked st1 h1 effs1 ->
  st1 = st /\ effs1 = effs
  /\ select_wait (ready [RecvResp; RecvQueueClosing] st req) false h tl
     = Parked h1.
Proof.
  unfold awaitResponse.
  destruct (select_wait _ false h tl) as [a h' rest|h' rest|h'] eqn:Hsel.
  - destruct a;
      match goal with
      | |- context [recv ?a ?b] => destruct (recv a b); discriminate
      end.
  - exfalso. exact (select_wait_no_default _ _ _ Hsel).
  - intros [= <- <- <-]. auto.
Qed.

Lemma awaitResponse_returned st req h effs tl id ok st1 h1 effs1 rest :
  awaitResponse st req h effs tl = Returned id ok st1 h1 effs1 rest ->
  effs1 = effs.
Proof.
  unfold awaitResponse.
  destruct (select_wait _ false h tl) as [a h' rest'|h' rest'|h'];
    [|discriminate|discriminate].
  destruct a;
    match goal with
    | |- context [recv ?a ?b] => destruct (recv a b)
    end; intros [= _ _ _ _ <- _]; reflexivity.
Qed.

Lemma awaitResponse_app_parked st req h effs tl1 tl2 h1 :
  select_wait (ready [RecvResp; RecvQueueClosing] st req) false h tl1
    = Parked h1 ->
  awaitResponse st req h effs (tl1 ++ tl2) = awaitResponse st req h1 effs tl2.
Proof.
  intros Hp. unfold awaitResponse.
  rewrite (select_wait_app_parked _ _ _ _ tl2 Hp). reflexivity.
Qed.

Lemma publish_app_parked st req h tl1 tl2 h1 :
  select_wait
    (ready [SendEvents; RecvDone; RecvQueueClosing] st (encode st req))
    false h tl1 = Parked h1 ->
  publish st req h (tl1 ++ tl2) = publish st req h1 tl2.
Proof.
  intros Hp. unfold publish.
  rewrite (select_wait_app_parked _ _ _ _ tl2 Hp). reflexivity.
Qed.

(** A [publish] that waits without having sent is parked on its first
    [select]. *)
Lemma publish_blocked_unsent st req h tl st1 h1 :
  publish st req h tl = Blocked st1 h1 [] ->
  select_wait
    (ready [SendEvents; RecvDone; RecvQueueClosing] st (encode st req))
    false h tl = Parked h1.
Proof.
  unfold publish.
  destruct (select_wait _ false h tl) as [a h' rest|h' rest|h'] eqn:Hsel.
  - destruct a;
      try match goal with
      | |- context [recv ?a ?b] => destruct (recv a b); discriminate
      end.
    destruct (send h' (events st) (VRequest (encode st req)));
      [|discriminate].
    intros Hb. apply awaitResponse_blocked in Hb.
    destruct Hb as (_ & Hb & _). discriminate Hb.
  - exfalso. exact (select_wait_no_default _ _ _ Hsel).
  - intros [= _ <-]. reflexivity.
Qed.

(** A call that waits after having sent is parked on the inner [select]. *)
Lemma call_blocked_sent m st req h tl st1 h1 c r :
  openState_call m st req h tl = Blocked st1 h1 [Sent c r] ->
  exists h0 rest hs,
    c = events st /\ r = encode st req
    /\ send h0 (events st) (VRequest (encode st req)) = Some hs
    /\ select_wait
         (ready [RecvResp; RecvQueueClosing] st (encode st req)) false hs rest
       = Parked h1
    /\ forall tl2,
         openState_call m st req h (tl ++ tl2)
         = awaitResponse st (encode st req) hs [Sent c r] (rest ++ tl2).
Proof.
  destruct m; cbn [openState_call]; [unfold publish | unfold tryPublish].
  - destruct (select_wait _ false h tl) as [a h' rest|h' rest|h'] eqn:Hsel;
      [|discriminate|discriminate].
    destruct a;
      try match goal with
      | |- context [recv ?a ?b] => destruct (recv a b); discriminate
      end.
    destruct (send h' (events st) (VRequest (encode st req))) as [hs|] eqn:Hs;
      [|discriminate].
    intros Hb. apply awaitResponse_blocked in Hb.
    destruct Hb as (_ & [= -> ->] & Hp).
    exists h', rest, hs.
    split; [reflexivity|]. split; [reflexivity|]. split; [exact Hs|].
    split; [exact Hp|].
    intros tl2. rewrite (select_wait_app_fired _ _ _ _ tl2 Hsel), Hs.
    reflexivity.
  - destruct (select_wait _ true h tl) as [a h' rest|h' rest|h'] eqn:Hsel;
      [|discriminate|discriminate].
    destruct a;
      try match goal with
      | |- context [recv ?a ?b] => destruct (recv a b); discriminate
      end.
    destruct (send h' (events st) (VRequest (encode st req))) as [hs|] eqn:Hs;
      [|discriminate].
    intros Hb. apply awaitResponse_blocked in Hb.
    destruct Hb as (_ & [= -> ->] & Hp).
    exists h', rest, hs.
    split; [reflexivity|]. split; [reflexivity|]. split; [exact Hs|].
    split; [exact Hp|].
    intros tl2. rewrite (select_wait_app_fired _ _ _ _ tl2 Hsel), Hs.
    reflexivity.
Qed.

(** ** [newProducer] *)

(** What [newProducer] puts behind the pointer it returns. *)
Lemma newProducer_stores (b : broker Logger) (cb : option ackHandler)
    (encoder : option (Encoder Entry)) w :
  objs (snd (newProducer b cb encoder w)) !! fst (newProducer b cb encoder w)
    = Some (match cb with
            | Some f =>
                AckProducer
                  (mkAckProducer b 0 (mkProduceState (Some f) 0)
                     (sharedOpenState b encoder w))
            | None =>
                ForgetfulProducer
                  (mkForgetfulProducer b (sharedOpenState b encoder w))
            end).
Proof.
  unfold newProducer, make, sharedOpenState.
  destruct cb as [f|]; cbn [fst snd objs];
    (rewrite lookup_app_r by lia); rewrite Nat.sub_diag; reflexivity.
Qed.

(** C9: [newProducer] returns a pointer to an [ackProducer], with the
    callback in its produce state and a zero counter, exactly when the
    callback is not [nil], and to a [forgetfulProducer] otherwise; either
    one holds the same open state: the broker's logger, push channel and
    closing channel, the encoder, and a done channel made for it. *)
Theorem newProducer_kind (b : broker Logger) (cb : option ackHandler)
    (encoder : option (Encoder Entry)) w :
  let p := fst (newProducer b cb encoder w) in
  let w' := snd (newProducer b cb encoder w) in
  let st := sharedOpenState b encoder w in
  objs w' !! p
    = Some (match cb with
            | Some f =>
                AckProducer
                  (mkAckProducer b 0 (mkProduceState (Some f) 0) st)
            | None => ForgetfulProducer (mkForgetfulProducer b st)
            end)
  /\ (cb <> None <->
      exists a,
        objs w' !! p = Some (AckProducer a) /\ memqueue.cb (state a) = cb)
  /\ (cb = None <-> exists f, objs w' !! p = Some (ForgetfulProducer f))
  /\ objs w' = objs w ++ match objs w' !! p with Some o => [o] | None => [] end
  /\ chans w' = chans w ++ [mkChan 0 [] false]
  /\ trace w' = trace w.
Proof.
  cbv zeta. rewrite newProducer_stores.
  split; [reflexivity|].
  unfold newProducer, make, sharedOpenState. destruct cb as [f|];
    cbn [fst snd objs chans trace].
  - split.
    { split; [intros _; eexists; split; reflexivity | discriminate]. }
    split.
    { split; [discriminate | intros [g Hg]; discriminate Hg]. }
    repeat split.
  - split.
    { split; [congruence | intros (a & Ha & _); discriminate Ha]. }
    split.
    { split; [intros _; eexists; reflexivity | reflexivity]. }
    repeat split.
Qed.

(** ** [tryPublish] on a full push channel *)

(** C3: when the push channel cannot take the request at once and nothing
    can be received from the producer's done channel, [tryPublish] returns
    [(0, false)] at its first look, whatever the scheduler picks and
    whatever happens later; it sends nothing and leaves its receiver and the
    channels as they are. *)
Theorem tryPublish_never_waits st req h acts pick tl :
  let h1 := env_run h acts in
  send_ready h1 (events st) = false ->
  recv_ready h1 (done st) = false ->
  tryPublish st req h ((acts, pick) :: tl)
    = Returned 0 false st h1 [Debugf "Dropping event, queue is blocked"] tl.
Proof.
  intros h1 Hsend Hdone. rewrite tryPublish_first. cbv zeta. fold h1.
  unfold ready. cbn [List.filter can_proceed]. rewrite Hsend, Hdone.
  reflexivity.
Qed.

(** [tryPublish] waits for nothing but the broker's answer to a request it
    has handed over. *)
Lemma tryPublish_waits_only_for_response st req h acts pick tl st1 h1 effs :
  tryPublish st req h ((acts, pick) :: tl) = Blocked st1 h1 effs ->
  effs = [Sent (events st) (encode st req)].
Proof.
  rewrite tryPublish_first. cbv zeta.
  destruct (go_select _ true pick) as [[| | |]| |] eqn:Hsel;
    try discriminate.
  - destruct (send _ (events st) _); [|discriminate].
    intros Hb. apply awaitResponse_blocked in Hb. tauto.
  - exfalso. unfold go_select in Hsel.
    destruct (ready _ _ _ _); discriminate.
Qed.

(** ** Shutting down *)

Lemma call_rejected_on_shutdown m st req h acts pick tl :
  shutting_down st (env_run h acts) = true ->
  send_ready (env_run h acts) (events st) = false ->
  exists st' h' effs,
    openState_call m st req h ((acts, pick) :: tl)
      = Returned 0 false st' h' effs tl
    /\ sent_requests effs = []
    /\ (m = MPublish -> st' = events_nil st /\ effs = []).
Proof.
  intros Hdown Hsend. set (h1 := env_run h acts) in *.
  destruct m; cbn [openState_call].
  - rewrite publish_first. cbv zeta. fold h1.
    unfold ready. cbn [List.filter can_proceed]. rewrite Hsend.
    destruct (recv_ready h1 (done st)) eqn:Hd;
      destruct (recv_ready h1 (queueClosing st)) eqn:Hq.
    + destruct (go_select_two RecvDone RecvQueueClosing false pick)
        as [-> | ->]; eexists _, _, _; repeat split.
    + rewrite go_select_one. eexists _, _, _; repeat split.
    + rewrite go_select_one. eexists _, _, _; repeat split.
    + exfalso. unfold shutting_down in Hdown.
      apply orb_true_iff in Hdown.
      destruct Hdown as [Hc | Hc]; apply is_closed_recv_ready in Hc;
        congruence.
  - rewrite tryPublish_first. cbv zeta. fold h1.
    unfold ready. cbn [List.filter can_proceed]. rewrite Hsend.
    destruct (recv_ready h1 (done st)) eqn:Hd.
    + rewrite go_select_one. eexists _, _, _.
      split; [reflexivity|]. split; [reflexivity | discriminate].
    + rewrite go_select_nil. eexists _, _, _.
      split; [reflexivity|]. split; [reflexivity | discriminate].
Qed.

(** C4 (as amended): once the queue is closing or the producer's done
    channel is closed, a [publish] or [tryPublish] whose request the push
    channel cannot take at its first look returns [(0, false)] there and
    sends nothing; a [publish] that was waiting to send is released with
    [(0, false)] at the first look at which this holds; and a call that has
    sent its request and waits for the broker's response is released with
    [(0, false)] at the first look at which the queue is closing and no
    response has come. *)
Theorem publish_shutdown st req h :
  (forall m acts pick tl,
     shutting_down st (env_run h acts) = true ->
     send_ready (env_run h acts) (events st) = false ->
     exists st' h' effs,
       openState_call m st req h ((acts, pick) :: tl)
         = Returned 0 false st' h' effs tl
       /\ sent_requests effs = [])
  /\ (forall tl1 st1 h1 acts pick tl2,
        publish st req h tl1 = Blocked st1 h1 [] ->
        shutting_down st (env_run h1 acts) = true ->
        send_ready (env_run h1 acts) (events st) = false ->
        exists h',
          publish st req h (tl1 ++ (acts, pick) :: tl2)
            = Returned 0 false (events_nil st) h' [] tl2)
  /\ (forall m tl1 st1 h1 c r acts pick tl2,
        openState_call m st req h tl1 = Blocked st1 h1 [Sent c r] ->
        is_closed (env_run h1 acts) (queueClosing st) = true ->
        recv_ready (env_run h1 acts) (resp req) = false ->
        exists h',
          openState_call m st req h (tl1 ++ (acts, pick) :: tl2)
            = Returned 0 false (events_nil st) h' [Sent c r] tl2).
Proof.
  split; [|split].
  - intros m acts pick tl Hdown Hsend.
    destruct (call_rejected_on_shutdown m st req h acts pick tl Hdown Hsend)
      as (st' & h' & effs & Hcall & Hsent & _).
    exists st', h', effs. split; assumption.
  - intros tl1 st1 h1 acts pick tl2 Hblocked Hdown Hsend.
    apply publish_blocked_unsent in Hblocked.
    rewrite (@publish_app_parked st req h tl1 _ h1 Hblocked).
    destruct (call_rejected_on_shutdown MPublish st req h1 acts pick tl2
                Hdown Hsend) as (st' & h' & effs & Hcall & _ & Hpub).
    destruct (Hpub eq_refl) as [-> ->]. exists h'. exact Hcall.
  - intros m tl1 st1 h1 c r acts pick tl2 Hblocked Hclosing Hresp.
    apply call_blocked_sent in Hblocked.
    destruct Hblocked as (h0 & rest & hs & -> & -> & _ & Hparked & Happ).
    rewrite Happ, (@awaitResponse_app_parked st _ hs _ rest _ h1 Hparked).
    rewrite awaitResponse_first. cbv zeta.
    unfold ready. cbn [List.filter can_proceed].
    rewrite resp_encode, Hresp, (is_closed_recv_ready _ _ Hclosing).
    rewrite go_select_one. eexists. reflexivity.
Qed.

(** ** The producer's counter *)

(** What a returning call has done: nothing, a log line, or one send; and
    it was accepted only after a send. *)
Lemma call_returned_effs m st req h tl id ok st' h' effs rest :
  openState_call m st req h tl = Returned id ok st' h' effs rest ->
  (ok = false /\ sent_requests effs = [])
  \/ effs = [Sent (events st) (encode st req)].
Proof.
  destruct m; cbn [openState_call]; [unfold publish | unfold tryPublish].
  - destruct (select_wait _ false h tl) as [a h1 rest1|h1 rest1|h1];
      [|discriminate|discriminate].
    destruct a;
      try match goal with
      | |- context [recv ?a ?b] =>
          destruct (recv a b); intros [= _ <- _ _ <- _]; left; split;
          reflexivity
      end.
    destruct (send h1 (events st) _); [|discriminate].
    intros Hr. apply awaitResponse_returned in Hr. right. exact Hr.
  - destruct (select_wait _ true h tl) as [a h1 rest1|h1 rest1|h1];
      [| |discriminate].
    + destruct a;
        try match goal with
        | |- context [recv ?a ?b] =>
            destruct (recv a b); intros [= _ <- _ _ <- _]; left; split;
            reflexivity
        end.
      destruct (send h1 (events st) _); [|discriminate].
      intros Hr. apply awaitResponse_returned in Hr. right. exact Hr.
    + intros [= _ <- _ _ <- _]. left. split; reflexivity.
Qed.

(** One call on an [ackProducer]. *)
Lemma ackProducer_call_returned m self (a : ackProducer Entry Logger ackHandler)
    ev w tl id ok w' :
  objs w !! self = Some (AckProducer a) ->
  Producer_call m self ev w tl = CallReturned id ok w' ->
  exists a' effs,
    objs w' !! self = Some (AckProducer a')
    /\ producedCount a'
       = (if ok then uint64 (producedCount a + 1) else producedCount a)
    /\ trace w' = trace w ++ effs
    /\ Forall (fun q => producer q = Some self
                        /\ producerID q = uint64 (producedCount a + 1))
         (sent_requests effs)
    /\ (ok = true -> length (sent_requests effs) = 1%nat).
Proof.
  intros Hobj. unfold Producer_call. rewrite Hobj.
  unfold ackProducer_call, ackProducer_makePushRequest, make.
  match goal with
  | |- context [openState_call m ?st ?req ?h tl] =>
      destruct (openState_call m st req h tl)
        as [id1 ok1 st1 h1 effs1 rest1|st1 h1 effs1|] eqn:Hcall
  end; [|discriminate|discriminate].
  intros [= <- <- <-].
  assert (Hlt : (self < length (objs w))%nat)
    by (eapply lookup_lt_Some; exact Hobj).
  apply call_returned_effs in Hcall.
  assert (Hsent : Forall (fun q => producer q = Some self
                            /\ producerID q = uint64 (producedCount a + 1))
                    (sent_requests effs1)
                  /\ (ok1 = true -> length (sent_requests effs1) = 1%nat)).
  { destruct Hcall as [[-> ->] | ->].
    - split; [constructor | discriminate].
    - cbn [sent_requests flat_map app]. split; [|reflexivity].
      constructor; [|constructor].
      rewrite producer_encode, producerID_encode. split; reflexivity. }
  destruct Hsent as [Hsent Hone].
  destruct ok1; eexists _, effs1; cbn [objs trace];
    rewrite list_lookup_insert_eq by exact Hlt;
    (split; [reflexivity|]); (split; [reflexivity|]);
    (split; [reflexivity|]); (split; [exact Hsent | exact Hone]).
Qed.

Lemma run_invariant self calls :
  forall w (a : ackProducer Entry Logger ackHandler),
    objs w !! self = Some (AckProducer a) ->
    let rs := run self w calls in
    Forall (carries self) rs
    /\ (forall i r r',
          rs !! i = Some r -> rs !! S i = Some r' -> r_before r' = r_after r)
    /\ (forall r, head rs = Some r -> r_before r = producedCount a)
    /\ (0 <= producedCount a ->
        producedCount a + Z.of_nat (length (accepted rs)) < 2 ^ 64 ->
        accepted_ids rs
        = map (fun k => producedCount a + Z.of_nat k)
            (seq 1 (length (accepted rs)))).
Proof.
  induction calls as [|c calls IH]; intros w a Hobj; cbn [run].
  { cbv zeta. split; [constructor|]. split; [intros i r r' Hr; discriminate Hr|].
    split; [intros r Hr; discriminate Hr|]. intros _ _. reflexivity. }
  destruct (Producer_call (c_method c) self (c_event c) w (c_window c))
    as [id ok w'| |] eqn:Hcall.
  2,3: cbv zeta; split; [constructor|]; split;
    [intros i r r' Hr; discriminate Hr|]; split;
    [intros r Hr; discriminate Hr|]; intros _ _; reflexivity.
  destruct (ackProducer_call_returned _ _ _ _ _ Hobj Hcall)
    as (a' & effs & Hobj' & Hcount & Htrace & Hsent & Hone).
  specialize (IH w' a' Hobj'). cbv zeta in IH.
  destruct IH as (IHall & IHchain & IHhead & IHids).
  assert (Hbefore : producedCount_at w self = producedCount a)
    by (unfold producedCount_at; rewrite Hobj; reflexivity).
  assert (Hafter : producedCount_at w' self = producedCount a')
    by (unfold producedCount_at; rewrite Hobj'; reflexivity).
  assert (Hdrop : drop (length (trace w)) (trace w') = effs)
    by (rewrite Htrace; apply drop_app_length).
  rewrite Hbefore, Hafter, Hdrop. cbv zeta.
  split; [|split; [|split]].
  - constructor; [|exact IHall].
    unfold carries. cbn [r_before r_sent r_accepted r_after].
    split; [exact Hsent|]. split; [exact Hcount | exact Hone].
  - intros [|i] r r'; cbn [lookup list_lookup].
    + intros [= <-] Hr'. cbn [r_after].
      destruct (run self w' calls) as [|r0 rs0] eqn:Hrun; [discriminate Hr'|].
      injection Hr' as <-. apply IHhead. reflexivity.
    + apply IHchain.
  - intros r [= <-]. reflexivity.
  - intros Hpos Hbound. unfold accepted_ids, accepted in *.
    cbn [List.filter r_accepted] in *.
    destruct ok.
    + cbn [length] in Hbound.
      cbn [flat_map r_sent length seq map].
      assert (Hone' := Hone eq_refl).
      destruct (sent_requests effs) as [|q [|q' qs]]; try discriminate Hone'.
      apply Forall_inv in Hsent. destruct Hsent as [_ Hq].
      cbn [map app]. rewrite Hq.
      rewrite uint64_small in Hcount |- * by lia.
      rewrite IHids by lia. rewrite Hcount.
      apply (f_equal2 cons); [lia|]. rewrite <- (seq_shift _ 1), map_map.
      apply map_ext. intros k. lia.
    + rewrite Hcount in IHids. apply IHids; assumption.
Qed.

(** C1: on a producer made by [newProducer] with a callback, every request
    a call sends carries the producer and the ID [producedCount + 1]; the
    counter goes up by one exactly when the call returns accepted (and not
    at all otherwise), an accepted call having sent exactly one request; the
    counter a call finds is the one its predecessor left, starting from 0;
    so the IDs carried by the accepted calls are 1, 2, 3, ... (for fewer
    than [2^64] of them). *)
Theorem ackProducer_ids_consecutive (b : broker Logger) (f : ackHandler)
    (encoder : option (Encoder Entry)) w0 (calls : list (call Entry)) :
  let self := fst (newProducer b (Some f) encoder w0) in
  let w := snd (newProducer b (Some f) encoder w0) in
  let rs := run self w calls in
  Z.of_nat (length (accepted rs)) < 2 ^ 64 ->
  Forall (carries self) rs
  /\ (forall i r r',
        rs !! i = Some r -> rs !! S i = Some r' -> r_before r' = r_after r)
  /\ (forall r, head rs = Some r -> r_before r = 0)
  /\ accepted_ids rs = map Z.of_nat (seq 1 (length (accepted rs))).
Proof.
  intros self w rs Hbound.
  pose proof (newProducer_stores b (Some f) encoder w0) as Hobj.
  fold self in Hobj. fold w in Hobj.
  destruct (run_invariant self calls w Hobj)
    as (Hall & Hchain & Hhead & Hids).
  fold rs in Hall, Hchain, Hhead, Hids.
  cbn [producedCount] in Hhead, Hids.
  split; [exact Hall|]. split; [exact Hchain|]. split; [exact Hhead|].
  rewrite Hids by lia.
  apply map_ext. intros k. lia.
Qed.

End Props.

Example producerWorld_closed :
  Producer_Close 0 producerWorld = Some closedWorld.
Proof. vm_compute. reflexivity. Qed.

(** C4, the claim as first stated, fails: a producer is made and closed;
    the push channel has room, so the [select] of a later [Publish] may take
    the send; the broker takes the request and answers with entry ID 7, and
    [Publish] returns [(7, true)]. *)
Lemma Publish_accepted_after_Close :
  ~ (forall (w : world nat unit nat) self o ev tl id ok w',
       objs w !! self = Some o ->
       shutting_down (openState_of o) (chans w) = true ->
       Publish self ev w tl = CallReturned id ok w' ->
       id = 0 /\ ok = false).
Proof.
  intros H.
  assert (Hcall : exists w',
            Publish 0 5%nat closedWorld
              [([], 0%nat);
               ([EnvRecv _ 0%nat; EnvSend 3%nat (VEntryID 7)], 0%nat)]
            = CallReturned 7 true w')
    by (eexists; vm_compute; reflexivity).
  destruct Hcall as [w' Hcall].
  destruct (H closedWorld 0%nat (AckProducer sampleProducer) _ _ _ _ _
              eq_refl eq_refl Hcall) as [Hid _].
  discriminate Hid.
Qed.

Lemma tryPublish_never_waits_witness :
  tryPublish sampleState sampleRequest callChans
    [([EnvSend 0%nat (VRequest otherRequest)], 0%nat)]
  = Returned 0 false sampleState
      [mkChan 1 [VRequest otherRequest] false; mkChan 0 [] false;
       mkChan 0 [] false; mkChan 1 [] false]
      [Debugf "Dropping event, queue is blocked"] [].
Proof.
  apply (@tryPublish_never_waits nat unit sampleState sampleRequest
           callChans [EnvSend 0%nat (VRequest otherRequest)] 0%nat []
           eq_refl eq_refl).
Defined.

Lemma publish_shutdown_witness :
  (exists st' h' effs,
     tryPublish sampleState sampleRequest callChans
       [([EnvSend 0%nat (VRequest otherRequest); EnvClose _ 2%nat], 0%nat)]
     = Returned 0 false st' h' effs []
     /\ sent_requests effs = [])
  /\ (exists h',
        publish sampleState sampleRequest callChans
          ([([EnvSend 0%nat (VRequest otherRequest)], 0%nat)]
           ++ ([EnvClose _ 1%nat], 0%nat) :: [])
        = Returned 0 false (events_nil sampleState) h' [] [])
  /\ (exists h',
        publish sampleState sampleRequest callChans
          ([([], 0%nat); ([EnvRecv _ 0%nat], 0%nat)]
           ++ ([EnvClose _ 1%nat], 0%nat) :: [])
        = Returned 0 false (events_nil sampleState) h'
            [Sent (Some 0%nat) sampleRequest] []).
Proof.
  destruct (@publish_shutdown nat unit sampleState sampleRequest callChans)
    as (Hfirst & Hsend & Hresp).
  split; [|split].
  - apply (Hfirst MTryPublish); reflexivity.
  - eapply Hsend; reflexivity.
  - eapply (Hresp MPublish); reflexivity.
Defined.

Example sampleCalls_results :
  map (fun r => (r_before r, r_id r, r_accepted r, r_after r))
    (run 0 producerWorld sampleCalls)
  = [(0, 10, true, 1); (1, 0, false, 1); (1, 12, true, 2)].
Proof. vm_compute. reflexivity. Qed.

Lemma ackProducer_ids_consecutive_witness :
  accepted_ids (run 0 producerWorld sampleCalls) = [1; 2].
Proof.
  apply (@ackProducer_ids_consecutive nat unit nat sampleBroker 7%nat None
           sampleWorld sampleCalls).
  vm_compute. reflexivity.
Defined.

End memqueue_props.

(* ===================================================================== *)
(** * More about the disk queue *)
(* ===================================================================== *)

Module diskqueue_more.

Import Go GoFacts diskqueue diskqueue_props.
Local Open Scope string_scope.
Local Open Scope list_scope.
Local Open Scope Z_scope.

Section More.

Variable headerSize : queueSegment -> Z.
Variable directoryPath : Settings -> string.
Variable stateFilePath : Settings -> string.
Variable Encoder : Type.

Abbreviation NewQueue :=
  (@diskqueue.NewQueue headerSize directoryPath stateFilePath Encoder).
Abbreviation FactoryForSettings :=
  (@diskqueue.FactoryForSettings headerSize directoryPath stateFilePath
     Encoder).
Abbreviation diskReady := (diskqueue.diskReady directoryPath stateFilePath).
Abbreviation firstCause := (diskqueue.firstCause directoryPath stateFilePath).

(** ** Every way [NewQueue] can fail *)

Lemma firstCause_None fs settings :
  firstCause fs settings = None <-> diskReady fs settings.
Proof.
  unfold diskqueue.firstCause, diskqueue.diskReady.
  destruct (os_MkdirAll fs (directoryPath settings)) as [e|].
  { split; [discriminate | intros (H & _); discriminate H]. }
  destruct (snd (os_OpenFile fs (stateFilePath settings))) as [e|].
  { split; [discriminate | intros (_ & H & _); discriminate H]. }
  split; [intros H; repeat split; exact H | intros (_ & _ & H); exact H].
Qed.

(** A failed file system call: [NewQueue] returns its error, as it is or
    wrapped, and leaves the channels alone and the loops unstarted. *)
Lemma NewQueue_failure fs o settings ef s c :
  sizeCheckPasses settings ->
  firstCause fs settings = Some c ->
  exists new e,
    NewQueue fs o settings ef s
      = (mkState (chans s) (trace s ++ new), inl e)
    /\ loopsStarted new = []
    /\ (e = c \/ exists format, e = ErrorfW format c).
Proof.
  intros Hc Hcause. unfold sizeCheckPasses in Hc.
  unfold diskqueue.firstCause in Hcause.
  unfold diskqueue.NewQueue, mbind, M_bind, mret, M_ret, emit, fail,
    make_chan, make.
  simpl. rewrite Hc. simpl.
  destruct (os_MkdirAll fs (directoryPath settings)) as [e|]; simpl.
  { injection Hcause as <-. eexists _, _. rewrite <- app_assoc.
    split; [reflexivity|]. split; [reflexivity|]. right. eexists.
    reflexivity. }
  destruct (queuePositionFromPath fs (stateFilePath settings)) as [p0 e0].
  destruct (os_OpenFile fs (stateFilePath settings)) as [pf e1].
  destruct (scanExistingSegments fs (directoryPath settings)) as [segs e2].
  simpl in Hcause.
  destruct e1 as [e1|].
  { injection Hcause as <-.
    destruct e0 as [e0|]; [destruct (errors_Is_ErrNotExist e0)|]; simpl;
      rewrite <- ?app_assoc; simpl; eexists _, _;
      (split; [reflexivity|]); (split; [reflexivity|]); right; eexists;
      reflexivity. }
  subst e2.
  destruct e0 as [e0|]; [destruct (errors_Is_ErrNotExist e0)|]; simpl;
    rewrite <- ?app_assoc; simpl; eexists _, _;
    (split; [reflexivity|]); (split; [reflexivity|]); left; reflexivity.
Qed.

Lemma sizeCheck_dec settings :
  sizeCheckPasses settings
  \/ (0 <? MaxBufferSize settings)
     && (MaxBufferSize settings <? uint64 (MaxSegmentSize settings * 2))
     = true.
Proof.
  unfold sizeCheckPasses.
  destruct ((0 <? MaxBufferSize settings)
            && (MaxBufferSize settings
                <? uint64 (MaxSegmentSize settings * 2))); auto.
Qed.

(** X1: a factory made for some settings returns a queue exactly when the
    capacity check lets the settings through and the directory can be made,
    the state file opened for writing and the segments listed; the input
    queue size it is given makes no difference to what it returns. *)
Theorem FactoryForSettings_succeeds_iff fs settings o n ef s :
  ((exists q, snd (FactoryForSettings fs settings o n ef s) = inr q)
   <-> sizeCheckPasses settings /\ diskReady fs settings)
  /\ (forall n',
        FactoryForSettings fs settings o n' ef s
        = FactoryForSettings fs settings o n ef s).
Proof.
  split; [|reflexivity].
  unfold diskqueue.FactoryForSettings. split.
  - intros [q Hq].
    destruct (sizeCheck_dec settings) as [Hc | Hc].
    + split; [exact Hc|]. apply firstCause_None.
      destruct (firstCause fs settings) as [c|] eqn:Hcause; [|reflexivity].
      destruct (NewQueue_failure fs o ef s Hc Hcause)
        as (new & e & Hrun & _).
      rewrite Hrun in Hq. discriminate Hq.
    + rewrite (@NewQueue_size_error headerSize directoryPath stateFilePath
                 Encoder fs o settings ef s Hc) in Hq.
      discriminate Hq.
  - intros [Hc Hd].
    rewrite (@NewQueue_run headerSize directoryPath stateFilePath Encoder
               fs o settings ef s Hc Hd).
    eexists. reflexivity.
Qed.


(** ** What [NewQueue] leaves behind *)




(** ** The segments and the read position of a new queue *)

Lemma moveAcked_spec (r : Z) (segs : list queueSegment) :
  fst (moveAcked r [] segs) ++ snd (moveAcked r [] segs) = segs
  /\ Forall (fun seg => id seg < r) (fst (moveAcked r [] segs))
  /\ match snd (moveAcked r [] segs) with
     | first :: _ => r <= id first
     | [] => True
     end.
Proof.
  induction segs as [|seg segs (IHapp & IHacked & IHfirst)]; simpl.
  - repeat split. constructor.
  - destruct (Z.ltb_spec (id seg) r) as [Hlt | Hge].
    + rewrite moveAcked_prefix. cbn [fst snd app].
      split; [f_equal; exact IHapp|].
      split; [constructor; assumption | exact IHfirst].
    + cbn [fst snd app]. split; [reflexivity|].
      split; [constructor | exact Hge].
Qed.

Lemma segmentID_resetByteIndex (p : queuePosition) :
  segmentID (resetByteIndex p) = segmentID p.
Proof. unfold resetByteIndex. destruct (frameIndex p =? 0); reflexivity. Qed.

(** X4: whatever order the segments are found in, a new queue holds each of
    them once: the acked list followed by the reading list is the list as
    found; every acked segment is older than the persisted segment ID, and
    the first segment left to read is not. *)
Theorem NewQueue_keeps_every_segment fs o settings ef s :
  sizeCheckPasses settings -> diskReady fs settings ->
  let found := fst (scanExistingSegments fs (directoryPath settings)) in
  let readSegmentID :=
    segmentID (fst (queuePositionFromPath fs (stateFilePath settings))) in
  exists s' q,
    NewQueue fs o settings ef s = (s', inr q)
    /\ acked (segments q) ++ reading (segments q) = found
    /\ Forall (fun seg => id seg < readSegmentID) (acked (segments q))
    /\ (forall first rest,
          reading (segments q) = first :: rest -> readSegmentID <= id first).
Proof.
  intros Hc Hd found readSegmentID.
  eexists _, _. split;
    [apply (@NewQueue_run headerSize directoryPath stateFilePath Encoder);
     assumption|].
  cbn [segments acked reading]. rewrite segmentID_resetByteIndex.
  fold found. fold readSegmentID.
  destruct (moveAcked_spec readSegmentID found) as (Happ & Hacked & Hfirst).
  split; [exact Happ|]. split; [exact Hacked|].
  intros first rest Hrd. rewrite Hrd in Hfirst. exact Hfirst.
Qed.

(** X5: the read position of a new queue lies in the first segment left to
    read: its segment ID is that segment's ID, whether the position was
    loaded or moved there; with no segment left to read it is the loaded
    position (byte index reset for a zero frame index), and the byte offset
    handed to the reader is the position's byte index. *)
Theorem NewQueue_position_in_first_segment fs o settings ef s :
  sizeCheckPasses settings -> diskReady fs settings ->
  let loaded := fst (queuePositionFromPath fs (stateFilePath settings)) in
  exists s' q,
    NewQueue fs o settings ef s = (s', inr q)
    /\ (forall first rest,
          reading (segments q) = first :: rest ->
          segmentID (nextPosition (acks q)) = id first)
    /\ (reading (segments q) = [] ->
        nextPosition (acks q) = resetByteIndex loaded)
    /\ nextReadPosition (segments q) = byteIndex (nextPosition (acks q)).
Proof.
  intros Hc Hd loaded.
  eexists _, _. split;
    [apply (@NewQueue_run headerSize directoryPath stateFilePath Encoder);
     assumption|].
  cbn [segments acks reading nextPosition nextReadPosition]. fold loaded.
  destruct (moveAcked_spec (segmentID (resetByteIndex loaded))
              (fst (scanExistingSegments fs (directoryPath settings))))
    as (_ & _ & Hfirst).
  split; [|split; [|reflexivity]].
  - intros first rest Hrd. rewrite Hrd in Hfirst |- *.
    unfold advancePosition.
    destruct (Z.ltb_spec (segmentID (resetByteIndex loaded)) (id first))
      as [Hlt | Hge]; cbn [segmentID]; lia.
  - intros Hrd. rewrite Hrd. reflexivity.
Qed.

Lemma last_Forall {A : Type} (P : A -> Prop) (l : list A) (x : A) :
  Forall P l -> last l = Some x -> P x.
Proof.
  induction 1 as [|y l Hy Hl IH]; [discriminate|].
  destruct l as [|z l]; [intros [= <-]; exact Hy | exact IH].
Qed.

Lemma last_sorted_max (segs : list queueSegment) (top : queueSegment) :
  StronglySorted (fun a b => id a <= id b) segs ->
  last segs = Some top ->
  Forall (fun seg => id seg <= id top) segs.
Proof.
  induction 1 as [|seg segs Hs IH Hall]; [discriminate|].
  destruct segs as [|seg' segs].
  - intros [= <-]. constructor; [lia | constructor].
  - intros Hlast. change (last (seg' :: segs) = Some top) in Hlast.
    constructor; [|exact (IH Hlast)].
    exact (last_Forall Hall Hlast).
Qed.

(** X6: the ID a new queue gives its next segment is past every segment
    found, and is 0 when none was found, so no existing ID is used again
    (the segments being listed in ascending order, with IDs below the
    largest [uint64]). *)
Theorem NewQueue_nextID_fresh fs o settings ef s :
  sizeCheckPasses settings -> diskReady fs settings ->
  let found := fst (scanExistingSegments fs (directoryPath settings)) in
  StronglySorted (fun a b => id a <= id b) found ->
  Forall (fun seg => 0 <= id seg < 2 ^ 64 - 1) found ->
  exists s' q,
    NewQueue fs o settings ef s = (s', inr q)
    /\ Forall (fun seg => id seg < nextID (segments q)) found
    /\ (found = [] -> nextID (segments q) = 0)
    /\ (forall top, last found = Some top ->
        nextID (segments q) = id top + 1).
Proof.
  intros Hc Hd found Hsorted Hrange.
  eexists _, _. split;
    [apply (@NewQueue_run headerSize directoryPath stateFilePath Encoder);
     assumption|].
  cbn [segments nextID]. fold found. unfold firstFreeID.
  destruct (last found) as [top|] eqn:Hlast.
  - assert (Htop : 0 <= id top < 2 ^ 64 - 1)
      by exact (last_Forall Hrange Hlast).
    rewrite uint64_small by lia.
    split; [|split].
    + eapply Forall_impl; [exact (last_sorted_max Hsorted Hlast)|].
      simpl. intros seg Hle. lia.
    + intros Hnil. rewrite Hnil in Hlast. discriminate Hlast.
    + intros top' [= <-]. reflexivity.
  - destruct found as [|seg segs].
    + split; [constructor|]. split; [reflexivity | discriminate].
    + exfalso. clear -Hlast. revert seg Hlast.
      induction segs as [|seg' segs IH]; intros seg Hlast;
        [discriminate Hlast | exact (IH seg' Hlast)].
Qed.

(** ** Closing a new queue *)

(** X7: a queue just returned by [NewQueue] can be closed: [Close] returns
    [nil] and closes the close channel only; the channel [Done] hands out
    and the write-request channel stay open, and the channels that were
    there before [NewQueue] are as they were; a second [Close] panics. *)
Theorem NewQueue_then_Close fs o settings ef s :
  sizeCheckPasses settings -> diskReady fs settings ->
  exists s' q h',
    NewQueue fs o settings ef s = (s', inr q)
    /\ Close q (chans s') = CloseReturned None h'
    /\ is_closed h' (close q) = true
    /\ is_closed h' (Done q) = false
    /\ is_closed h' (producerWriteRequestChan q) = false
    /\ (forall i, (i < length (chans s))%nat -> h' !! i = chans s !! i)
    /\ Close q h' = ClosePanicked.
Proof.
  intros Hc Hd.
  eexists _, _, _. split;
    [apply (@NewQueue_run headerSize directoryPath stateFilePath Encoder);
     assumption|].
  cbn [chans]. set (h := chans s).
  assert (Hnew : (h ++ [mkChan 0 [] false; mkChan 0 [] false;
                        mkChan 0 [] false]) !! S (length h)
                 = Some (@mkChan unit 0 [] false)).
  { rewrite lookup_app_r by lia.
    replace (S (length h) - length h)%nat with 1%nat by lia. reflexivity. }
  unfold Close, Done, Go.close, is_closed.
  cbn [close done producerWriteRequestChan]. rewrite Hnew. cbn [ch_closed].
  split; [reflexivity|].
  cbn [ch_cap ch_buf].
  assert (Hins : <[S (length h) := @mkChan unit 0 [] true]>
                   (h ++ [mkChan 0 [] false; mkChan 0 [] false;
                          mkChan 0 [] false])
                 = h ++ [mkChan 0 [] false; mkChan 0 [] true;
                         mkChan 0 [] false]).
  { rewrite insert_app_r_alt by lia.
    replace (S (length h) - length h)%nat with 1%nat by lia. reflexivity. }
  subst h. rewrite Hins.
  rewrite !lookup_app_r by lia.
  replace (S (length (chans s)) - length (chans s))%nat with 1%nat by lia.
  replace (S (S (length (chans s))) - length (chans s))%nat with 2%nat
    by lia.
  rewrite Nat.sub_diag. cbn.
  repeat split.
  intros i Hi. apply lookup_app_l. exact Hi.
Qed.

(** ** The pending events in the log *)

Lemma int_sub_r (a b : Z) : int (a - int b) = int (a - b).
Proof.
  unfold int, wrap_signed, int_bits. f_equal.
  replace (a - ((b + 2 ^ (64 - 1)) mod 2 ^ 64 - 2 ^ (64 - 1))
           + 2 ^ (64 - 1))
    with (a + 2 ^ (64 - 1) + 2 ^ (64 - 1)
          - (b + 2 ^ (64 - 1)) mod 2 ^ 64) by ring.
  rewrite Zminus_mod_idemp_r. f_equal. ring.
Qed.

Lemma activeFrames_sum (segs : list queueSegment) (a : Z) :
  activeFrames segs (int a) = int (a + Zsum (map frameCount segs)).
Proof.
  revert a. unfold Zsum.
  induction segs as [|seg segs IH]; intros a;
    cbn [activeFrames map fold_right].
  - rewrite Z.add_0_r. reflexivity.
  - rewrite (int_add_r (int a)), (int_add_l a), IH, Z.add_assoc.
    reflexivity.
Qed.

Lemma infoLines_loadWarning (err : option error) :
  infoLines (loadWarning err) = [].
Proof.
  unfold loadWarning. destruct err as [e|]; [|reflexivity].
  destruct (errors_Is_ErrNotExist e); reflexivity.
Qed.

(** X8: a new queue logs one line of numbers: the events and the bytes
    reported to the observer, and the events still pending, which are the
    frames of the segments left to read less the frame index of the read
    position (each converted to [int]). *)
Theorem NewQueue_logs_pending fs o settings ef s :
  sizeCheckPasses settings -> diskReady fs settings ->
  let found := fst (scanExistingSegments fs (directoryPath settings)) in
  exists s' q new,
    NewQueue fs o settings ef s = (s', inr q)
    /\ trace s' = trace s ++ new
    /\ infoLines new
       = [[int (Zsum (map frameCount found));
           int (Zsum (map (fun seg => byteCount seg - headerSize seg)
                        found));
           int (Zsum (map frameCount (reading (segments q)))
                - frameIndex (nextPosition (acks q)))]].
Proof.
  intros Hc Hd found.
  eexists _, _, _. split;
    [apply (@NewQueue_run headerSize directoryPath stateFilePath Encoder);
     assumption|].
  cbn [trace segments acks reading nextPosition].
  split; [reflexivity|]. fold found.
  unfold infoLines. rewrite !flat_map_app.
  fold (infoLines (loadWarning
          (snd (queuePositionFromPath fs (stateFilePath settings))))).
  rewrite infoLines_loadWarning. cbn [flat_map app].
  rewrite initialCounts_from_zero. cbn [fst snd].
  change 0 with (int 0) at 1.
  rewrite activeFrames_sum, Z.add_0_l, int_sub_r.
  rewrite <- (Z.add_opp_r (int _)), int_add_l, Z.add_opp_r.
  reflexivity.
Qed.

(** ** The capacity check past [2^63] *)

(** X9: for a segment size of [2^63] or more the doubling in the capacity
    check wraps around: a buffer size above 0 is then refused only when it
    is below [2 * MaxSegmentSize - 2^64], and every other one passes the
    check, although it is smaller than twice the segment size. *)
Theorem NewQueue_capacity_check_wraps fs o settings ef s :
  2 ^ 63 <= MaxSegmentSize settings < 2 ^ 64 ->
  0 < MaxBufferSize settings ->
  (MaxBufferSize settings < 2 * MaxSegmentSize settings - 2 ^ 64 ->
   exists s' e, NewQueue fs o settings ef s = (s', inl e)
                /\ chans s' = chans s)
  /\ (2 * MaxSegmentSize settings - 2 ^ 64 <= MaxBufferSize settings ->
      exists rest,
        trace (fst (NewQueue fs o settings ef s))
        = trace s
          ++ [Debugf "Initializing disk queue at path %v";
              ObserverMaxBytes (observerOf o)
                (int (MaxBufferSize settings))]
          ++ rest).
Proof.
  intros Hseg Hpos.
  assert (Hdouble : uint64 (MaxSegmentSize settings * 2)
                    = 2 * MaxSegmentSize settings - 2 ^ 64).
  { unfold uint64, wrap_unsigned.
    replace (MaxSegmentSize settings * 2)
      with (2 * MaxSegmentSize settings - 2 ^ 64 + 1 * 2 ^ 64) by ring.
    rewrite Z.mod_add by lia. apply Z.mod_small. lia. }
  split.
  - intros Hlt. eexists _, _. split.
    + apply (@NewQueue_size_error headerSize directoryPath stateFilePath
               Encoder).
      rewrite Hdouble. apply andb_true_intro.
      split; apply Z.ltb_lt; assumption.
    + reflexivity.
  - intros Hge.
    apply (@NewQueue_past_check headerSize directoryPath stateFilePath
             Encoder).
    unfold sizeCheckPasses. rewrite Hdouble. apply andb_false_iff.
    right. apply Z.ltb_ge. exact Hge.
Qed.

(** ** Producers of a disk queue *)

Variable ProducerConfig : Type.

(** X10: [Producer] gives every producer a done channel of its own: the
    channel is new, open and empty, the channels already there are left as
    they are, and a producer made afterwards gets a different one; the
    producer holds the queue and the configuration it was made with and
    encodes events as CBOR. *)
Theorem Producer_own_done (dq : diskQueue Encoder)
    (cfg cfg' : ProducerConfig) (h : heap unit) :
  let p := fst (Producer dq cfg h) in
  let h1 := snd (Producer dq cfg h) in
  let p' := fst (Producer dq cfg' h1) in
  let h2 := snd (Producer dq cfg' h1) in
  dqp_done p = Some (length h)
  /\ dqp_done p' <> dqp_done p
  /\ h2 !! length h = Some (mkChan 0 [] false)
  /\ h2 !! S (length h) = Some (mkChan 0 [] false)
  /\ (forall i, (i < length h)%nat -> h2 !! i = h !! i)
  /\ dqp_queue p = dq /\ dqp_config p = cfg
  /\ dqp_encoder p = SerializationCBOR.
Proof.
  cbv zeta. unfold Producer, make.
  cbn [fst snd dqp_done dqp_queue dqp_config dqp_encoder].
  rewrite length_app. cbn [length].
  split; [reflexivity|].
  split; [intros [= Heq]; lia|].
  split.
  { rewrite lookup_app_l by (rewrite length_app; cbn [length]; lia).
    rewrite lookup_app_r by lia. rewrite Nat.sub_diag. reflexivity. }
  split.
  { rewrite lookup_app_r by (rewrite length_app; cbn [length]; lia).
    rewrite length_app. cbn [length].
    replace (S (length h) - (length h + 1))%nat with 0%nat by lia.
    reflexivity. }
  split; [|repeat split].
  intros i Hi.
  rewrite lookup_app_l by (rewrite length_app; cbn [length]; lia).
  apply lookup_app_l. exact Hi.
Qed.

End More.

(** ** On the sample directory *)

Lemma sampleSegments_in_range :
  Forall (fun seg => 0 <= id seg < 2 ^ 64 - 1) sampleSegments.
Proof.
  unfold sampleSegments. repeat (constructor; simpl; try lia).
Defined.


Lemma NewQueue_keeps_every_segment_witness :
  exists s' q,
    sampleNewQueue sampleDisk None sampleSettings None emptyState
      = (s', inr q)
    /\ acked (segments q) ++ reading (segments q) = sampleSegments.
Proof.
  destruct (@NewQueue_keeps_every_segment sampleHeaderSize sampleDirectory
              sampleStateFile unit sampleDisk None sampleSettings None
              emptyState sampleSettings_pass sampleDisk_ready)
    as (s' & q & Hrun & Happ & _).
  exists s', q. split; [exact Hrun | exact Happ].
Defined.

Lemma NewQueue_position_in_first_segment_witness :
  exists s' q,
    sampleNewQueue sampleDisk None sampleSettings None emptyState
      = (s', inr q)
    /\ nextReadPosition (segments q) = byteIndex (nextPosition (acks q)).
Proof.
  destruct (@NewQueue_position_in_first_segment sampleHeaderSize
              sampleDirectory sampleStateFile unit sampleDisk None
              sampleSettings None emptyState sampleSettings_pass
              sampleDisk_ready)
    as (s' & q & Hrun & _ & _ & Hbyte).
  exists s', q. split; [exact Hrun | exact Hbyte].
Defined.

Lemma NewQueue_nextID_fresh_witness :
  exists s' q,
    sampleNewQueue sampleDisk None sampleSettings None emptyState
      = (s', inr q)
    /\ nextID (segments q) = 5.
Proof.
  destruct (@NewQueue_nextID_fresh sampleHeaderSize sampleDirectory
              sampleStateFile unit sampleDisk None sampleSettings None
              emptyState sampleSettings_pass sampleDisk_ready
              sampleSegments_sorted sampleSegments_in_range)
    as (s' & q & Hrun & _ & _ & Hlast).
  exists s', q. split; [exact Hrun|].
  exact (Hlast (mkSegment 4 (Some 1) 6 300) eq_refl).
Defined.

Lemma NewQueue_then_Close_witness :
  exists s' q h',
    sampleNewQueue sampleDisk None sampleSettings None emptyState
      = (s', inr q)
    /\ Close q (chans s') = CloseReturned None h'
    /\ Close q h' = ClosePanicked.
Proof.
  destruct (@NewQueue_then_Close sampleHeaderSize sampleDirectory
              sampleStateFile unit sampleDisk None sampleSettings None
              emptyState sampleSettings_pass sampleDisk_ready)
    as (s' & q & h' & Hrun & Hclose & _ & _ & _ & _ & Hagain).
  exists s', q, h'. split; [exact Hrun|]. split; assumption.
Defined.

Lemma NewQueue_logs_pending_witness :
  exists s' q new,
    sampleNewQueue sampleDisk None sampleSettings None emptyState
      = (s', inr q)
    /\ trace s' = [] ++ new
    /\ infoLines new = [[15; 564; 11]].
Proof.
  destruct (@NewQueue_logs_pending sampleHeaderSize sampleDirectory
              sampleStateFile unit sampleDisk None sampleSettings None
              emptyState sampleSettings_pass sampleDisk_ready)
    as (s' & q & new & Hrun & Htrace & Hinfo).
  exists s', q, new. split; [exact Hrun|]. split; [exact Htrace|].
  rewrite Hinfo. vm_compute in Hrun. injection Hrun as _ <-.
  vm_compute. reflexivity.
Defined.

Lemma NewQueue_capacity_check_wraps_witness :
  exists rest,
    trace (fst (sampleNewQueue sampleDisk None (mkSettings 5 (2 ^ 63)) None
                  emptyState))
    = [] ++ [Debugf "Initializing disk queue at path %v";
             ObserverMaxBytes NewQueueObserver (int 5)] ++ rest.
Proof.
  apply (proj2 (@NewQueue_capacity_check_wraps sampleHeaderSize
                  sampleDirectory sampleStateFile unit sampleDisk None
                  (mkSettings 5 (2 ^ 63)) None emptyState
                  ltac:(simpl; lia) ltac:(simpl; lia))).
  simpl. lia.
Defined.

End diskqueue_more.

(* ===================================================================== *)
(** * More about the memory queue producers *)
(* ===================================================================== *)

Module memqueue_more.

Import Go GoFacts memqueue memqueue_props.
Local Open Scope string_scope.
Local Open Scope list_scope.
Local Open Scope Z_scope.

(** ** The heap under [select] *)

Section Heap.

Variable V : Type.

Lemma length_send (h h' : heap V) c v :
  send h c v = Some h' -> length h' = length h.
Proof.
  unfold send. destruct c as [i|]; [|discriminate].
  destruct (h !! i) as [ch|]; [|discriminate].
  destruct (ch_closed ch); [discriminate|].
  intros [= <-]. apply length_insert.
Qed.

Lemma length_recv (h : heap V) c : length (snd (recv h c)) = length h.
Proof.
  unfold recv. destruct c as [i|]; [|reflexivity].
  destruct (h !! i) as [ch|]; [|reflexivity].
  destruct (ch_buf ch); [reflexivity|]. apply length_insert.
Qed.

Lemma length_env_run (acts : list (env_action V)) (h : heap V) :
  length (env_run h acts) = length h.
Proof.
  unfold env_run. revert h.
  induction acts as [|a acts IH]; intros h; [reflexivity|].
  cbn [fold_left]. rewrite IH.
  destruct a as [c|c v|c]; cbn [env_step].
  - destruct (Go.close h (Some c)) as [h'|] eqn:Hc; [|reflexivity].
    unfold Go.close in Hc. destruct (h !! c) as [ch|]; [|discriminate].
    destruct (ch_closed ch); [discriminate|].
    injection Hc as <-. apply length_insert.
  - destruct (send_ready h (Some c)); [|reflexivity].
    destruct (send h (Some c) v) as [h'|] eqn:Hs; [|reflexivity].
    exact (length_send _ _ _ Hs).
  - apply length_recv.
Qed.

Lemma env_run_app (h : heap V) (a b : list (env_action V)) :
  env_run (env_run h a) b = env_run h (a ++ b).
Proof. unfold env_run. symmetry. apply fold_left_app. Qed.

Lemma is_closed_insert (h : heap V) (c i : nat) (ch ch' : chan V) :
  h !! c = Some ch -> ch_closed ch' = ch_closed ch ->
  is_closed (<[c := ch']> h) (Some i) = is_closed h (Some i).
Proof.
  intros Hc Hcl. unfold is_closed.
  destruct (Nat.eq_dec c i) as [->|Hne].
  - rewrite list_lookup_insert_eq by (eapply lookup_lt_Some; exact Hc).
    rewrite Hc. exact Hcl.
  - rewrite list_lookup_insert_ne by exact Hne. reflexivity.
Qed.

(** Only [close] closes a channel. *)
Lemma env_step_closed (h : heap V) (a : env_action V) (i : nat) :
  is_closed (env_step h a) (Some i) = true ->
  is_closed h (Some i) = true \/ a = EnvClose V i.
Proof.
  destruct a as [c|c v|c]; cbn [env_step].
  - unfold Go.close.
    destruct (h !! c) as [ch|] eqn:Hc; [|left; assumption].
    destruct (ch_closed ch) eqn:Hcl; [left; assumption|].
    destruct (Nat.eq_dec c i) as [->|Hne]; [right; reflexivity|].
    unfold is_closed. rewrite list_lookup_insert_ne by exact Hne.
    left; assumption.
  - destruct (send_ready h (Some c)); [|left; assumption].
    unfold send.
    destruct (h !! c) as [ch|] eqn:Hc; [|left; assumption].
    destruct (ch_closed ch) eqn:Hcl; [left; assumption|].
    rewrite (@is_closed_insert h c i ch _ Hc) by (cbn; congruence).
    left; assumption.
  - unfold recv.
    destruct (h !! c) as [ch|] eqn:Hc; [|left; assumption].
    destruct (ch_buf ch) as [|v rest]; [left; assumption|].
    cbn [snd]. rewrite (@is_closed_insert h c i ch _ Hc) by reflexivity.
    left; assumption.
Qed.

Lemma env_run_closed (acts : list (env_action V)) (h : heap V) (i : nat) :
  is_closed (env_run h acts) (Some i) = true ->
  is_closed h (Some i) = false ->
  In (EnvClose V i) acts.
Proof.
  unfold env_run. revert h.
  induction acts as [|a acts IH]; intros h; cbn [fold_left].
  - intros H1 H2. rewrite H1 in H2. discriminate.
  - intros H1 H2.
    destruct (is_closed (env_step h a) (Some i)) eqn:Hs.
    + destruct (env_step_closed h a i Hs) as [H|H].
      * rewrite H in H2. discriminate.
      * left. exact H.
    + right. exact (IH _ H1 Hs).
Qed.

Variable A : Type.
Variable ready : heap V -> list A.

Lemma go_select_In (l : list A) (d : bool) (pick : nat) (a : A) :
  go_select l d pick = Chosen a -> In a l.
Proof.
  destruct l as [|x l]; unfold go_select.
  - destruct d; discriminate.
  - intros H.
    assert (Ha : a = nth (pick mod length (x :: l))%nat (x :: l) x)
      by congruence.
    rewrite Ha. apply (nth_In (x :: l)).
    apply Nat.mod_upper_bound. discriminate.
Qed.

(** The case that fires is one that can proceed, on a heap of the size the
    [select] started from. *)
Lemma select_wait_fired d h tl a h1 rest :
  select_wait ready d h tl = Fired a h1 rest ->
  In a (ready h1) /\ length h1 = length h.
Proof.
  revert h. induction tl as [|[acts pick] tl IH]; intros h; simpl.
  - discriminate.
  - destruct (go_select (ready (env_run h acts)) d pick) eqn:Hsel;
      try discriminate.
    + intros [= <- <- <-]. split; [|apply length_env_run].
      eapply go_select_In. exact Hsel.
    + intros Hf. destruct (IH _ Hf) as [Hin Hlen].
      split; [exact Hin|]. rewrite Hlen. apply length_env_run.
Qed.

Lemma select_wait_fell d h tl h1 rest :
  select_wait ready d h tl = FellThrough h1 rest ->
  ready h1 = [] /\ length h1 = length h.
Proof.
  revert h. induction tl as [|[acts pick] tl IH]; intros h; simpl.
  - discriminate.
  - destruct (go_select (ready (env_run h acts)) d pick) eqn:Hsel;
      try discriminate.
    + intros [= <- <-]. split; [|apply length_env_run].
      unfold go_select in Hsel.
      destruct (ready (env_run h acts)); [reflexivity | discriminate].
    + intros Hf. destruct (IH _ Hf) as [Hin Hlen].
      split; [exact Hin|]. rewrite Hlen. apply length_env_run.
Qed.

(** The heap a [select] fires on is the one the other goroutines have
    made of the starting heap over the moments it has used up. *)
Lemma select_wait_fired_reach d h tl a h1 rest :
  select_wait ready d h tl = Fired a h1 rest ->
  exists pre,
    tl = pre ++ rest /\ h1 = env_run h (concat (map fst pre)).
Proof.
  revert h. induction tl as [|[acts pick] tl IH]; intros h; simpl.
  - discriminate.
  - destruct (go_select (ready (env_run h acts)) d pick) eqn:Hsel;
      try discriminate.
    + intros [= <- <- <-]. exists [(acts, pick)]. split; [reflexivity|].
      simpl. rewrite app_nil_r. reflexivity.
    + intros Hf. destruct (IH _ Hf) as (pre & -> & ->).
      exists ((acts, pick) :: pre). split; [reflexivity|].
      simpl. apply env_run_app.
Qed.

End Heap.

Section More.

Variable Entry : Type.
Variable Logger : Type.
Variable ackHandler : Type.

Implicit Types (st : openState Entry Logger) (req : pushRequest Entry).
Implicit Types (h : heap (value Entry)) (tl : list (moment (value Entry))).
Implicit Types (w : world Entry Logger ackHandler) (m : method).

Lemma ready_In cases st req h c :
  In c (ready cases st req h) -> In c cases /\ can_proceed st req h c = true.
Proof. unfold ready. apply filter_In. Qed.

(** ** What a returning call has done to its receiver *)

Lemma awaitResponse_returned_inv st req h effs tl id ok st1 h1 effs1 rest :
  awaitResponse st req h effs tl = Returned id ok st1 h1 effs1 rest ->
  effs1 = effs
  /\ ((ok = true /\ st1 = st
       /\ exists h0,
            recv_ready h0 (resp req) = true
            /\ id = entryID_of (fst (recv h0 (resp req)))
            /\ h1 = snd (recv h0 (resp req)))
      \/ (ok = false /\ id = 0 /\ st1 = events_nil st)).
Proof.
  unfold awaitResponse.
  destruct (select_wait _ false h tl) as [a h' rest'|h' rest'|h'] eqn:Hsel;
    [|discriminate|discriminate].
  apply select_wait_fired in Hsel. destruct Hsel as [Hin _].
  apply ready_In in Hin. destruct Hin as [_ Hcan].
  destruct a; cbn [can_proceed] in Hcan.
  - destruct (recv h' (queueClosing st)). intros [= <- <- <- _ <- _].
    split; [reflexivity|]. right. auto.
  - destruct (recv h' (resp req)) as [v h''] eqn:Hrecv.
    intros [= <- <- <- <- <- _].
    split; [reflexivity|]. left. split; [reflexivity|].
    split; [reflexivity|]. exists h'. rewrite Hrecv. auto.
  - destruct (recv h' (queueClosing st)). intros [= <- <- <- _ <- _].
    split; [reflexivity|]. right. auto.
  - destruct (recv h' (queueClosing st)). intros [= <- <- <- _ <- _].
    split; [reflexivity|]. right. auto.
Qed.

(** X11: a call that returns has left its receiver in one of three ways.
    If it returns [true], the open state is as before.  If it returns
    [false], the entry ID is 0 and [events] has been set to [nil], with one
    exception: a [tryPublish] that took its [default] case leaves the open
    state as before, having logged the drop and sent nothing.  So a
    rejected [publish] always disables its producer, and a [tryPublish]
    rejected for a full queue never does. *)
Theorem rejected_call_state m st req h tl id ok st' h' effs rest :
  openState_call m st req h tl = Returned id ok st' h' effs rest ->
  (ok = true /\ st' = st)
  \/ (ok = false /\ id = 0 /\ st' = events_nil st)
  \/ (m = MTryPublish /\ ok = false /\ id = 0 /\ st' = st
      /\ effs = [Debugf "Dropping event, queue is blocked"]).
Proof.
  destruct m; cbn [openState_call]; [unfold publish | unfold tryPublish].
  - destruct (select_wait _ false h tl) as [a h1 rest1|h1 rest1|h1];
      [|discriminate|discriminate].
    destruct a;
      try match goal with
      | |- context [recv ?a ?b] =>
          destruct (recv a b); intros [= <- <- <- _ _ _]; right; left; auto
      end.
    destruct (send h1 (events st) _); [|discriminate].
    intros Hr. apply awaitResponse_returned_inv in Hr.
    destruct Hr as [_ [(-> & -> & _) | (-> & -> & ->)]]; auto.
  - destruct (select_wait _ true h tl) as [a h1 rest1|h1 rest1|h1];
      [| |discriminate].
    + destruct a;
        try match goal with
        | |- context [recv ?a ?b] =>
            destruct (recv a b); intros [= <- <- <- _ _ _]; right; left;
            auto
        end.
      destruct (send h1 (events st) _); [|discriminate].
      intros Hr. apply awaitResponse_returned_inv in Hr.
      destruct Hr as [_ [(-> & -> & _) | (-> & -> & ->)]]; auto.
    + intros [= <- <- <- _ <- _]. right. right. auto.
Qed.


(** ** A broker that answers *)

(** X13: when at the first look of a call the push channel is open and can
    take the request while neither the done nor the closing channel can be
    received from, the request is sent; when at the next look the entry ID
    [id] is the oldest value on the request's response channel and the
    queue is not closing, the call takes it and returns [(id, true)], with
    its open state as before. *)
Theorem call_answered m st req h acts1 pick1 acts2 pick2 tl hs i ch id buf :
  let h1 := env_run h acts1 in
  send_ready h1 (events st) = true ->
  recv_ready h1 (done st) = false ->
  recv_ready h1 (queueClosing st) = false ->
  send h1 (events st) (VRequest (encode st req)) = Some hs ->
  let h2 := env_run hs acts2 in
  resp req = Some i ->
  h2 !! i = Some ch ->
  ch_buf ch = VEntryID id :: buf ->
  recv_ready h2 (queueClosing st) = false ->
  openState_call m st req h ((acts1, pick1) :: (acts2, pick2) :: tl)
    = Returned id true st
        (<[i := mkChan (ch_cap ch) buf (ch_closed ch)]> h2)
        [Sent (events st) (encode st req)] tl.
Proof.
  intros h1 Hsend Hdone Hclosing Hs h2 Hresp Hi Hbuf Hclosing2.
  assert (Hinner :
    awaitResponse st (encode st req) hs [Sent (events st) (encode st req)]
      ((acts2, pick2) :: tl)
    = Returned id true st
        (<[i := mkChan (ch_cap ch) buf (ch_closed ch)]> h2)
        [Sent (events st) (encode st req)] tl).
  { rewrite awaitResponse_first. cbv zeta. fold h2.
    unfold ready. cbn [List.filter can_proceed].
    rewrite resp_encode, Hclosing2.
    assert (Hready : recv_ready h2 (resp req) = true).
    { unfold recv_ready. rewrite Hresp, Hi, Hbuf.
      apply orb_true_r. }
    rewrite Hready, go_select_one.
    unfold recv. rewrite Hresp, Hi, Hbuf. reflexivity. }
  destruct m; cbn [openState_call].
  - rewrite publish_first. cbv zeta. fold h1.
    unfold ready. cbn [List.filter can_proceed].
    rewrite Hsend, Hdone, Hclosing, go_select_one, Hs. exact Hinner.
  - rewrite tryPublish_first. cbv zeta. fold h1.
    unfold ready. cbn [List.filter can_proceed].
    rewrite Hsend, Hdone, go_select_one, Hs. exact Hinner.
Qed.

(** ** When [tryPublish] drops *)

(** X14: [tryPublish] drops the event, logging the drop and returning with
    its open state as it was, exactly when at its first look neither the
    send to the push channel nor the receive from the done channel can
    proceed. *)
Theorem tryPublish_drops_iff st req h acts pick tl :
  let h1 := env_run h acts in
  (exists id ok h' rest,
     tryPublish st req h ((acts, pick) :: tl)
     = Returned id ok st h' [Debugf "Dropping event, queue is blocked"]
         rest)
  <-> send_ready h1 (events st) = false
      /\ recv_ready h1 (done st) = false.
Proof.
  intros h1. rewrite tryPublish_first. cbv zeta. fold h1.
  unfold ready. cbn [List.filter can_proceed].
  destruct (send_ready h1 (events st)) eqn:Hsend;
    destruct (recv_ready h1 (done st)) eqn:Hdone.
  - split; [|intros [H _]; discriminate H].
    intros (id & ok & h' & rest & Hr). exfalso.
    destruct (go_select_two SendEvents RecvDone true pick) as [Hg | Hg];
      rewrite Hg in Hr; [|discriminate Hr].
    destruct (send h1 (events st) _); [|discriminate Hr].
    apply awaitResponse_returned in Hr. discriminate Hr.
  - split; [|intros [H _]; discriminate H].
    intros (id & ok & h' & rest & Hr). exfalso.
    rewrite go_select_one in Hr.
    destruct (send h1 (events st) _); [|discriminate Hr].
    apply awaitResponse_returned in Hr. discriminate Hr.
  - split; [|intros [_ H]; discriminate H].
    intros (id & ok & h' & rest & Hr). exfalso.
    rewrite go_select_one in Hr. discriminate Hr.
  - split; [auto|]. intros _. rewrite go_select_nil.
    eexists _, _, _, _. reflexivity.
Qed.

(** ** A [publish] that waited for room *)

(** X15: a [publish] that has waited without sending goes on as soon as the
    push channel, still open, has room and neither the done nor the
    closing channel can be received from: it appends its request to the
    channel's buffer, behind what is there and within the capacity, and
    then waits for the response. *)
Theorem publish_resumes st req h tl1 st1 h1 acts pick i ch :
  publish st req h tl1 = Blocked st1 h1 [] ->
  let h2 := env_run h1 acts in
  events st = Some i ->
  h2 !! i = Some ch ->
  ch_closed ch = false ->
  (length (ch_buf ch) < ch_cap ch)%nat ->
  recv_ready h2 (done st) = false ->
  recv_ready h2 (queueClosing st) = false ->
  let ch' :=
    mkChan (ch_cap ch) (ch_buf ch ++ [VRequest (encode st req)]) false in
  publish st req h (tl1 ++ [(acts, pick)])
    = Blocked st (<[i := ch']> h2) [Sent (events st) (encode st req)]
  /\ (length (ch_buf ch') <= ch_cap ch')%nat.
Proof.
  intros Hblocked h2 Hev Hi Hopen Hroom Hdone Hclosing ch'.
  split; [|unfold ch'; cbn [ch_buf ch_cap]; rewrite length_app;
           cbn [length]; lia].
  apply publish_blocked_unsent in Hblocked.
  rewrite (@publish_app_parked Entry Logger st req h tl1 _ h1 Hblocked).
  rewrite publish_first. cbv zeta. fold h2.
  unfold ready. cbn [List.filter can_proceed].
  assert (Hsend : send_ready h2 (events st) = true).
  { unfold send_ready. rewrite Hev, Hi, Hopen.
    apply Nat.ltb_lt in Hroom. rewrite Hroom. reflexivity. }
  rewrite Hsend, Hdone, Hclosing, go_select_one.
  unfold send. rewrite Hev, Hi, Hopen. reflexivity.
Qed.

(** ** A disabled producer *)

Lemma send_ready_nil h : send_ready h None = false.
Proof. reflexivity. Qed.


(** ** Panics *)

(** X22: a call panics in one case only: its first [select] took the send
    and the push channel was closed, on the heap the other goroutines had
    made over the moments used up till then.  So a call on a push channel
    that is not closed panics only after some goroutine has closed that
    channel. *)
Theorem call_panics_only_on_closed_channel m st req h tl :
  openState_call m st req h tl = Panicked ->
  exists pre rest,
    tl = pre ++ rest
    /\ is_closed (env_run h (concat (map fst pre))) (events st) = true
    /\ (is_closed h (events st) = false ->
        exists i, events st = Some i
                  /\ In (EnvClose _ i) (concat (map fst pre))).
Proof.
  assert (Hsend : forall h1,
            send_ready h1 (events st) = true ->
            send h1 (events st) (VRequest (encode st req)) = None ->
            is_closed h1 (events st) = true).
  { intros h1. unfold send_ready, send, is_closed.
    destruct (events st) as [i|]; [|discriminate].
    destruct (h1 !! i) as [ch|]; [|discriminate].
    destruct (ch_closed ch); [reflexivity | discriminate]. }
  assert (Hinner : forall hs effs tl0,
            awaitResponse st (encode st req) hs effs tl0 <> Panicked).
  { intros hs effs tl0. unfold awaitResponse.
    destruct (select_wait _ false hs tl0) as [a h1 rest1|h1 rest1|h1];
      [|discriminate|discriminate].
    destruct a;
      match goal with
      | |- context [recv ?a ?b] => destruct (recv a b); discriminate
      end. }
  assert (Hfin : forall pre : list (moment (value Entry)),
            is_closed (env_run h (concat (map fst pre))) (events st) = true ->
            is_closed h (events st) = false ->
            exists i, events st = Some i
                      /\ In (EnvClose _ i) (concat (map fst pre))).
  { intros pre Hc Hh. destruct (events st) as [i|] eqn:He.
    - exists i. split; [reflexivity|].
      exact (env_run_closed _ _ _ Hc Hh).
    - discriminate. }
  destruct m; cbn [openState_call]; [unfold publish | unfold tryPublish].
  - destruct (select_wait _ false h tl) as [a h1 rest1|h1 rest1|h1] eqn:Hsel;
      [|discriminate|discriminate].
    destruct (select_wait_fired_reach _ _ _ _ Hsel) as (pre & Htl & Hh1).
    apply select_wait_fired in Hsel. destruct Hsel as [Hin _].
    apply ready_In in Hin. destruct Hin as [_ Hcan].
    destruct a;
      try match goal with
      | |- context [recv ?a ?b] => destruct (recv a b); discriminate
      end.
    cbn [can_proceed] in Hcan.
    destruct (send h1 (events st) _) as [hs|] eqn:Hs.
    + intros Hp. exfalso. exact (Hinner _ _ _ Hp).
    + intros _. exists pre, rest1. split; [exact Htl|].
      assert (Hc := Hsend h1 Hcan Hs). rewrite Hh1 in Hc.
      split; [exact Hc | exact (Hfin pre Hc)].
  - destruct (select_wait _ true h tl) as [a h1 rest1|h1 rest1|h1] eqn:Hsel;
      [|discriminate|discriminate].
    destruct (select_wait_fired_reach _ _ _ _ Hsel) as (pre & Htl & Hh1).
    apply select_wait_fired in Hsel. destruct Hsel as [Hin _].
    apply ready_In in Hin. destruct Hin as [_ Hcan].
    destruct a;
      try match goal with
      | |- context [recv ?a ?b] => destruct (recv a b); discriminate
      end.
    cbn [can_proceed] in Hcan.
    destruct (send h1 (events st) _) as [hs|] eqn:Hs.
    + intros Hp. exfalso. exact (Hinner _ _ _ Hp).
    + intros _. exists pre, rest1. split; [exact Htl|].
      assert (Hc := Hsend h1 Hcan Hs). rewrite Hh1 in Hc.
      split; [exact Hc | exact (Hfin pre Hc)].
Qed.

(** ** Calls through a producer pointer *)

Lemma call_returned_length m st req h tl id ok st' h' effs rest :
  openState_call m st req h tl = Returned id ok st' h' effs rest ->
  length h' = length h.
Proof.
  assert (Hinner : forall hs effs0 tl0,
            awaitResponse st (encode st req) hs effs0 tl0
            = Returned id ok st' h' effs rest ->
            length h' = length hs).
  { intros hs effs0 tl0. unfold awaitResponse.
    destruct (select_wait _ false hs tl0) as [a h1 rest1|h1 rest1|h1]
      eqn:Hsel; [|discriminate|discriminate].
    apply select_wait_fired in Hsel. destruct Hsel as [_ Hlen].
    destruct a;
      match goal with
      | |- context [recv ?a ?b] =>
          pose proof (length_recv a b) as Hl; destruct (recv a b);
          cbn [snd] in Hl; intros [= _ _ _ <- _ _]; rewrite Hl; exact Hlen
      end. }
  destruct m; cbn [openState_call]; [unfold publish | unfold tryPublish].
  - destruct (select_wait _ false h tl) as [a h1 rest1|h1 rest1|h1] eqn:Hsel;
      [|discriminate|discriminate].
    apply select_wait_fired in Hsel. destruct Hsel as [_ Hlen].
    destruct a;
      try match goal with
      | |- context [recv ?a ?b] =>
          pose proof (length_recv a b) as Hl; destruct (recv a b);
          cbn [snd] in Hl; intros [= _ _ _ <- _ _]; rewrite Hl; exact Hlen
      end.
    destruct (send h1 (events st) _) as [hs|] eqn:Hs; [|discriminate].
    intros Hr. rewrite (Hinner _ _ _ Hr), (length_send _ _ _ Hs).
    exact Hlen.
  - destruct (select_wait _ true h tl) as [a h1 rest1|h1 rest1|h1] eqn:Hsel;
      [| |discriminate].
    + apply select_wait_fired in Hsel. destruct Hsel as [_ Hlen].
      destruct a;
        try match goal with
        | |- context [recv ?a ?b] =>
            pose proof (length_recv a b) as Hl; destruct (recv a b);
            cbn [snd] in Hl; intros [= _ _ _ <- _ _]; rewrite Hl;
            exact Hlen
        end.
      destruct (send h1 (events st) _) as [hs|] eqn:Hs; [|discriminate].
      intros Hr. rewrite (Hinner _ _ _ Hr), (length_send _ _ _ Hs).
      exact Hlen.
    + apply select_wait_fell in Hsel. destruct Hsel as [_ Hlen].
      intros [= _ _ _ <- _ _]. exact Hlen.
Qed.

(** A returning call through a pointer, taken apart: the request built,
    the call on the open state, and the world it leaves. *)
Lemma Producer_call_returned m self ev w tl id ok w'
    (o : producerObj Entry Logger ackHandler) :
  objs w !! self = Some o ->
  Producer_call m self ev w tl = CallReturned id ok w' ->
  exists req st' effs rest,
    event req = ev /\ eventSize req = 0
    /\ resp req = Some (length (chans w))
    /\ match o with
       | AckProducer p =>
           producer req = Some self
           /\ producerID req = uint64 (producedCount p + 1)
       | ForgetfulProducer _ => producer req = None /\ producerID req = 0
       end
    /\ openState_call m (openState_of o) req
         (chans w ++ [mkChan 1 [] false]) tl
       = Returned id ok st' (chans w') effs rest
    /\ trace w' = trace w ++ effs
    /\ objs w'
       = <[self := if ok then incr_producedCount (set_openState o st')
                   else set_openState o st']> (objs w).
Proof.
  intros Hobj. unfold Producer_call. rewrite Hobj.
  destruct o as [p | p].
  - unfold ackProducer_call, ackProducer_makePushRequest, make.
    match goal with
    | |- context [openState_call m ?st ?req ?h tl] =>
        destruct (openState_call m st req h tl)
          as [id1 ok1 st1 h1 effs1 rest1|st1 h1 effs1|] eqn:Hcall
    end; [|discriminate|discriminate].
    intros [= <- <- <-].
    exists (mkPushRequest ev 0 (Some self) (uint64 (producedCount p + 1))
              (Some (length (chans w)))), st1, effs1, rest1.
    cbn [event eventSize resp producer producerID chans trace objs
         openState_of].
    repeat split; try reflexivity. exact Hcall.
  - unfold forgetfulProducer_call, forgetfulProducer_makePushRequest, make.
    match goal with
    | |- context [openState_call m ?st ?req ?h tl] =>
        destruct (openState_call m st req h tl)
          as [id1 ok1 st1 h1 effs1 rest1|st1 h1 effs1|] eqn:Hcall
    end; [|discriminate|discriminate].
    intros [= <- <- <-].
    exists (mkPushRequest ev 0 None 0 (Some (length (chans w)))),
      st1, effs1, rest1.
    cbn [event eventSize resp producer producerID chans trace objs
         openState_of].
    repeat split; try reflexivity; [exact Hcall|].
    destruct ok1; reflexivity.
Qed.

Lemma openState_of_set (o : producerObj Entry Logger ackHandler) st :
  openState_of (set_openState o st) = st.
Proof. destruct o; reflexivity. Qed.

Lemma openState_of_incr (o : producerObj Entry Logger ackHandler) :
  openState_of (incr_producedCount o) = openState_of o.
Proof. destruct o; reflexivity. Qed.

(** The open state a returning call leaves: as before, or with [events]
    set to [nil]. *)
Lemma returned_state m st req h tl id ok st' h' effs rest :
  openState_call m st req h tl = Returned id ok st' h' effs rest ->
  (st' = st \/ st' = events_nil st)
  /\ (m = MPublish -> ok = false -> st' = events_nil st).
Proof.
  destruct m; cbn [openState_call]; [unfold publish | unfold tryPublish].
  - destruct (select_wait _ false h tl) as [a h1 rest1|h1 rest1|h1];
      [|discriminate|discriminate].
    destruct a;
      try match goal with
      | |- context [recv ?a ?b] =>
          destruct (recv a b); intros [= _ _ <- _ _ _]; auto
      end.
    destruct (send h1 (events st) _); [|discriminate].
    intros Hr. apply awaitResponse_returned_inv in Hr.
    destruct Hr as [_ [(-> & -> & _) | (-> & _ & ->)]];
      (split; [auto|]); [discriminate | auto].
  - destruct (select_wait _ true h tl) as [a h1 rest1|h1 rest1|h1];
      [| |discriminate].
    + destruct a;
        try match goal with
        | |- context [recv ?a ?b] =>
            destruct (recv a b); intros [= _ _ <- _ _ _];
            (split; [auto | discriminate])
        end.
      destruct (send h1 (events st) _); [|discriminate].
      intros Hr. apply awaitResponse_returned_inv in Hr.
      destruct Hr as [_ [(-> & -> & _) | (-> & _ & ->)]];
        (split; [auto | discriminate]).
    + intros [= _ _ <- _ _ _]. split; [auto | discriminate].
Qed.

(** X16: a call that returns leaves the producer it was made on the same
    producer: of the same kind, with the same broker, callback and last
    ACK, the same logger, done channel, closing channel and encoder, and
    [events] as before or [nil]; it touches no other producer. *)
Theorem call_keeps_producer m self ev w tl id ok w'
    (o : producerObj Entry Logger ackHandler) :
  objs w !! self = Some o ->
  Producer_call m self ev w tl = CallReturned id ok w' ->
  (exists o', objs w' !! self = Some o' /\ same_producer o o')
  /\ length (objs w') = length (objs w)
  /\ (forall j, j <> self -> objs w' !! j = objs w !! j).
Proof.
  intros Hobj Hcall.
  destruct (Producer_call_returned _ _ _ _ _ Hobj Hcall)
    as (req & st' & effs & rest & _ & _ & _ & _ & Hopen & _ & Hobjs).
  assert (Hlt : (self < length (objs w))%nat)
    by (eapply lookup_lt_Some; exact Hobj).
  rewrite Hobjs. split; [|split].
  - eexists. split; [apply list_lookup_insert_eq; exact Hlt|].
    apply returned_state in Hopen. destruct Hopen as [Hst _].
    unfold same_producer.
    assert (Hos : openState_of
                    (if ok then incr_producedCount (set_openState o st')
                     else set_openState o st') = st').
    { destruct ok; [rewrite openState_of_incr|]; apply openState_of_set. }
    rewrite Hos. split.
    { destruct o, ok; cbn; auto. }
    destruct Hst as [-> | ->]; cbn [events_nil log done queueClosing
                                    encoder events]; auto 10.
  - apply length_insert.
  - intros j Hj. apply list_lookup_insert_ne. congruence.
Qed.

(** X17: the request a call sends holds what the encoder makes of the event
    and the size it reports, or the event itself and size 0 when the
    producer has no encoder; its response channel is a channel that did
    not exist before the call. *)
Theorem sent_request_shape m self ev w tl id ok w'
    (o : producerObj Entry Logger ackHandler) :
  objs w !! self = Some o ->
  Producer_call m self ev w tl = CallReturned id ok w' ->
  exists effs,
    trace w' = trace w ++ effs
    /\ Forall (fun q => (event q, eventSize q) = encoded (openState_of o) ev
                        /\ resp q = Some (length (chans w))
                        /\ chans w !! length (chans w) = None)
         (sent_requests effs).
Proof.
  intros Hobj Hcall.
  destruct (Producer_call_returned _ _ _ _ _ Hobj Hcall)
    as (req & st' & effs & rest & Hev & Hsize & Hresp & _ & Hopen & Htrace
        & _).
  exists effs. split; [exact Htrace|].
  apply call_returned_effs in Hopen.
  destruct Hopen as [[_ ->] | ->]; [constructor|].
  cbn [sent_requests flat_map app]. constructor; [|constructor].
  rewrite resp_encode. split; [|split; [exact Hresp|]].
  - unfold encode, encoded.
    destruct (encoder (openState_of o)) as [enc|].
    + rewrite Hev. destruct (EncodeEntry enc ev). reflexivity.
    + rewrite Hev, Hsize. reflexivity.
  - apply lookup_ge_None. lia.
Qed.

(** ** Runs of calls *)

Lemma run_cons self w (c : call Entry) calls :
  run self w (c :: calls) =
    match Producer_call (c_method c) self (c_event c) w (c_window c) with
    | CallReturned id ok w' =>
        mkRecord (producedCount_at w self)
          (sent_requests (drop (length (trace w)) (trace w')))
          id ok (producedCount_at w' self)
        :: run self w' calls
    | _ => []
    end.
Proof. reflexivity. Qed.



Lemma run_responses self calls :
  forall w,
    Forall (fun q => exists k, resp q = Some k
                               /\ (length (chans w) <= k)%nat)
      (all_sent (run self w calls))
    /\ NoDup (map (fun q => resp q) (all_sent (run self w calls))).
Proof.
  induction calls as [|c calls IH]; intros w.
  { split; constructor. }
  rewrite run_cons.
  destruct (Producer_call (c_method c) self (c_event c) w (c_window c))
    as [id ok w'| |] eqn:Hcall; [|split; constructor|split; constructor].
  destruct (objs w !! self) as [o|] eqn:Hobj.
  2: { unfold Producer_call in Hcall. rewrite Hobj in Hcall.
       discriminate Hcall. }
  destruct (Producer_call_returned _ _ _ _ _ Hobj Hcall)
    as (req & st' & effs & rest & _ & _ & Hresp & _ & Hopen & Htrace & _).
  pose proof (call_returned_length _ _ _ _ _ Hopen) as Hlen.
  rewrite length_app in Hlen. cbn [length] in Hlen.
  destruct (IH w') as [IHfresh IHnodup].
  unfold all_sent in *. cbn [flat_map r_sent].
  rewrite Htrace, drop_app_length.
  assert (Hlater : Forall (fun q => exists k, resp q = Some k
                                    /\ (S (length (chans w)) <= k)%nat)
                     (flat_map (@r_sent Entry) (run self w' calls))).
  { eapply Forall_impl; [exact IHfresh|]. simpl.
    intros q (k & Hk & Hle). exists k. split; [exact Hk | lia]. }
  apply call_returned_effs in Hopen.
  destruct Hopen as [[_ ->] | ->].
  - cbn [app]. split; [|exact IHnodup].
    eapply Forall_impl; [exact Hlater|]. simpl.
    intros q (k & Hk & Hle). exists k. split; [exact Hk | lia].
  - cbn [sent_requests flat_map app map]. rewrite resp_encode, Hresp.
    split.
    + constructor;
        [exists (length (chans w)); rewrite resp_encode;
         split; [exact Hresp | lia]|].
      eapply Forall_impl; [exact Hlater|]. simpl.
      intros q (k & Hk & Hle). exists k. split; [exact Hk | lia].
    + constructor; [|exact IHnodup].
      intros Hin. apply list_elem_of_In, in_map_iff in Hin.
      destruct Hin as (q & Hq & Hin).
      rewrite Forall_forall in Hlater.
      destruct (Hlater q) as (k & Hk & Hle);
        [apply list_elem_of_In; exact Hin|].
      rewrite Hk in Hq. injection Hq as ->. lia.
Qed.

(** X19: in a run of calls through one producer, no two requests sent have
    the same response channel, and none has a response channel that was
    there when the run began: an answer can reach no call but the one that
    made the request. *)
Theorem run_responses_distinct self w (calls : list (call Entry)) :
  NoDup (map (fun q => resp q) (all_sent (run self w calls)))
  /\ Forall (fun q => exists k, resp q = Some k /\ chans w !! k = None)
       (all_sent (run self w calls)).
Proof.
  destruct (run_responses self calls w) as [Hfresh Hnodup].
  split; [exact Hnodup|].
  eapply Forall_impl; [exact Hfresh|]. simpl.
  intros q (k & Hk & Hle). exists k. split; [exact Hk|].
  apply lookup_ge_None. exact Hle.
Qed.

Lemma run_forgetful self calls :
  forall w (f : forgetfulProducer Entry Logger),
    objs w !! self = Some (ForgetfulProducer f) ->
    Forall (fun q => producer q = None /\ producerID q = 0)
      (all_sent (run self w calls))
    /\ Forall (fun r => r_before r = 0 /\ r_after r = 0) (run self w calls).
Proof.
  induction calls as [|c calls IH]; intros w f Hobj.
  { split; constructor. }
  rewrite run_cons.
  destruct (Producer_call (c_method c) self (c_event c) w (c_window c))
    as [id ok w'| |] eqn:Hcall; [|split; constructor|split; constructor].
  destruct (Producer_call_returned _ _ _ _ _ Hobj Hcall)
    as (req & st' & effs & rest & _ & _ & _ & (Hp & Hid) & Hopen & Htrace
        & Hobjs).
  assert (Hlt : (self < length (objs w))%nat)
    by (eapply lookup_lt_Some; exact Hobj).
  assert (Hobj' : objs w' !! self
                  = Some (ForgetfulProducer
                            (mkForgetfulProducer (fp_broker f) st'))).
  { rewrite Hobjs, list_lookup_insert_eq by exact Hlt.
    destruct ok; reflexivity. }
  destruct (IH w' _ Hobj') as [IHsent IHcount].
  unfold all_sent in *. cbn [flat_map r_sent].
  rewrite Htrace, drop_app_length.
  split.
  - apply Forall_app. split; [|exact IHsent].
    apply call_returned_effs in Hopen.
    destruct Hopen as [[_ ->] | ->]; [constructor|].
    cbn [sent_requests flat_map app]. constructor; [|constructor].
    rewrite producer_encode, producerID_encode. split; assumption.
  - constructor; [|exact IHcount]. cbn [r_before r_after].
    unfold producedCount_at. rewrite Hobj, Hobj'. split; reflexivity.
Qed.

(** X20: the requests sent through a producer made without a callback name
    no producer and carry the producer ID 0, in every call of a run. *)
Theorem forgetful_requests_anonymous (b : broker Logger)
    (encoder : option (Encoder Entry)) w0 (calls : list (call Entry)) :
  let self := fst (newProducer b (@None ackHandler) encoder w0) in
  let w := snd (newProducer b (@None ackHandler) encoder w0) in
  Forall (fun q => producer q = None /\ producerID q = 0)
    (all_sent (run self w calls)).
Proof.
  intros self w.
  pose proof (newProducer_stores b (@None ackHandler) encoder w0) as Hobj.
  fold self in Hobj. fold w in Hobj.
  eapply run_forgetful. exact Hobj.
Qed.

(** ** Closing a producer *)

(** X21: [Close] on a producer whose done channel is open closes that
    channel and nothing else: the producers, what has been done so far and
    every other channel are as before; and a second [Close] panics. *)
Theorem Producer_Close_once self w
    (o : producerObj Entry Logger ackHandler) :
  objs w !! self = Some o ->
  is_open (chans w) (done (openState_of o)) ->
  exists w',
    Producer_Close self w = Some w'
    /\ objs w' = objs w /\ trace w' = trace w
    /\ is_closed (chans w') (done (openState_of o)) = true
    /\ (forall c, c <> done (openState_of o) ->
        is_closed (chans w') c = is_closed (chans w) c)
    /\ Producer_Close self w' = None.
Proof.
  intros Hobj (i & ch & Hd & Hi & Hopen).
  assert (Hlt : (i < length (chans w))%nat)
    by (eapply lookup_lt_Some; exact Hi).
  unfold Producer_Close, openState_Close, Go.close.
  rewrite Hobj, Hd, Hi, Hopen.
  eexists. split; [reflexivity|]. cbn [objs trace chans].
  split; [reflexivity|]. split; [reflexivity|].
  unfold is_closed. rewrite Hobj, Hd.
  rewrite list_lookup_insert_eq by exact Hlt. cbn [ch_closed].
  split; [reflexivity|]. split; [|reflexivity].
  intros [j|] Hne; [|reflexivity].
  rewrite list_lookup_insert_ne by congruence. reflexivity.
Qed.

End More.

(** ** On the sample broker *)

Lemma rejected_call_state_witness :
  (false = true /\ sampleState = sampleState)
  \/ (false = false /\ 0 = 0 /\ sampleState = events_nil sampleState)
  \/ (MTryPublish = MTryPublish /\ false = false /\ 0 = 0
      /\ sampleState = sampleState
      /\ [Debugf "Dropping event, queue is blocked"]
         = [@Debugf nat "Dropping event, queue is blocked"]).
Proof.
  apply (@rejected_call_state nat unit MTryPublish sampleState sampleRequest
           fullChans [([], 0%nat)] 0 false sampleState fullChans
           [Debugf "Dropping event, queue is blocked"] []).
  reflexivity.
Defined.


Lemma call_answered_witness :
  publish sampleState sampleRequest callChans answeredWindow
  = Returned 10 true sampleState
      (<[3%nat := mkChan 1 [] false]>
         (env_run
            [mkChan 1 [VRequest sampleRequest] false; mkChan 0 [] false;
             mkChan 0 [] false; mkChan 1 [] false]
            [EnvRecv _ 0%nat; EnvSend 3%nat (VEntryID 10)]))
      [Sent (events sampleState) (encode sampleState sampleRequest)] [].
Proof.
  apply (@call_answered nat unit MPublish sampleState sampleRequest
           callChans [] 0%nat [EnvRecv _ 0%nat; EnvSend 3%nat (VEntryID 10)]
           0%nat []
           [mkChan 1 [VRequest sampleRequest] false; mkChan 0 [] false;
            mkChan 0 [] false; mkChan 1 [] false]
           3%nat (mkChan 1 [VEntryID 10] false) 10 []);
    reflexivity.
Defined.

Lemma publish_resumes_witness :
  publish sampleState sampleRequest callChans
    ([([EnvSend 0%nat (VRequest otherRequest)], 0%nat)]
     ++ [([EnvRecv _ 0%nat], 0%nat)])
  = Blocked sampleState
      (<[0%nat := mkChan 1 ([] ++ [VRequest
                                     (encode sampleState sampleRequest)])
                    false]>
         (env_run fullChans [EnvRecv _ 0%nat]))
      [Sent (events sampleState) (encode sampleState sampleRequest)].
Proof.
  refine (proj1 (@publish_resumes nat unit sampleState sampleRequest
                   callChans
                   [([EnvSend 0%nat (VRequest otherRequest)], 0%nat)]
                   sampleState fullChans [EnvRecv _ 0%nat] 0%nat 0%nat
                   (mkChan 1 [] false) _ _ _ _ _ _ _));
    try reflexivity.
  simpl. lia.
Defined.

Lemma call_panics_only_on_closed_channel_witness :
  exists pre rest,
    [([EnvClose (value nat) 0], 0%nat)] = pre ++ rest
    /\ is_closed (env_run callChans (concat (map fst pre)))
         (events sampleState) = true
    /\ (is_closed callChans (events sampleState) = false ->
        exists i, events sampleState = Some i
                  /\ In (EnvClose _ i) (concat (map fst pre))).
Proof.
  apply (@call_panics_only_on_closed_channel nat unit MPublish sampleState
           sampleRequest callChans [([EnvClose (value nat) 0], 0%nat)]).
  reflexivity.
Defined.

Lemma producerWorld_object :
  objs producerWorld !! 0%nat = Some (AckProducer sampleProducer).
Proof. reflexivity. Defined.

Lemma call_keeps_producer_witness :
  exists w',
    Publish 0 5%nat producerWorld answeredWindow = CallReturned 10 true w'
    /\ length (objs w') = length (objs producerWorld).
Proof.
  assert (Hcall : exists w',
            Publish 0 5%nat producerWorld answeredWindow
            = CallReturned 10 true w')
    by (eexists; vm_compute; reflexivity).
  destruct Hcall as [w' Hcall]. exists w'. split; [exact Hcall|].
  exact (proj1 (proj2 (@call_keeps_producer nat unit nat MPublish 0%nat
                         5%nat producerWorld answeredWindow 10 true w' _
                         producerWorld_object Hcall))).
Defined.

Lemma sent_request_shape_witness :
  exists w' effs,
    Publish 0 5%nat producerWorld answeredWindow = CallReturned 10 true w'
    /\ trace w' = trace producerWorld ++ effs
    /\ Forall (fun q => (event q, eventSize q)
                        = encoded sampleState 5%nat
                        /\ resp q = Some 3%nat
                        /\ chans producerWorld !! 3%nat = None)
         (sent_requests effs).
Proof.
  assert (Hcall : exists w',
            Publish 0 5%nat producerWorld answeredWindow
            = CallReturned 10 true w')
    by (eexists; vm_compute; reflexivity).
  destruct Hcall as [w' Hcall].
  destruct (@sent_request_shape nat unit nat MPublish 0%nat 5%nat
              producerWorld answeredWindow 10 true w' _
              producerWorld_object Hcall) as (effs & Htrace & Hshape).
  exists w', effs. split; [exact Hcall|]. split; [exact Htrace|].
  exact Hshape.
Defined.


Lemma Producer_Close_once_witness :
  exists w',
    Producer_Close 0 producerWorld = Some w'
    /\ is_closed (chans w') (Some 2%nat) = true
    /\ Producer_Close 0 w' = None.
Proof.
  destruct (@Producer_Close_once nat unit nat 0%nat producerWorld _
              producerWorld_object)
    as (w' & Hclose & _ & _ & Hclosed & _ & Hagain).
  - exists 2%nat, (mkChan 0 [] false). repeat split.
  - exists w'. split; [exact Hclose|]. split; [exact Hclosed | exact Hagain].
Defined.

End memqueue_more.
